(** * localcopy: a local copy of a resource that is available through HTTP(s)

    A shallow embedding of [localcopy.go].  The package is a handful of
    sequential calls into [net/http], [os], [io] and [time]; those calls are
    modelled as operations of a state monad over a [World] that holds the
    local file system, the remote side, the local clock and the trace of the
    calls made so far.  The five exported functions are then transcribed
    statement by statement on top of these operations. *)

From Stdlib Require Import ZArith Lia Ascii String.
From stdpp Require Import gmap strings list.

Local Open Scope string_scope.
Local Open Scope Z_scope.

(** ** Values shared with the Go runtime *)

(** [time.Time], as an instant on the time line (the times compared by the
    package come from [time.Parse] and from [FileInfo.ModTime], neither of
    which carries a monotonic clock reading). *)
Definition Time : Type := Z.

(** [t.After(u)]: the instant [t] is strictly after [u]. *)
Definition time_After (t u : Time) : bool := u <? t.

(** The error numbers a path operation can report. *)
Inductive Errno : Type :=
| ENOENT | EACCES | EEXIST | ENOTDIR | EISDIR | ENOSPC | EROFS | EIO.

Definition Errno_Error (e : Errno) : string :=
  match e with
  | ENOENT => "no such file or directory"
  | EACCES => "permission denied"
  | EEXIST => "file exists"
  | ENOTDIR => "not a directory"
  | EISDIR => "is a directory"
  | ENOSPC => "no space left on device"
  | EROFS => "read-only file system"
  | EIO => "input/output error"
  end.

(** A non-nil value of Go's [error] interface.  [*os.PathError] keeps its
    fields, because [os.IsNotExist] looks inside it; every other error (from
    [net/http], from [time.Parse], from [fmt.Errorf], from the caller's
    [ReadFunc]) only ever has its message formatted or is handed on as it is,
    and is represented by that message. *)
Inductive error : Type :=
| PathError (Op Path : string) (Err : Errno)
| errorString (s : string).

(** The [Error() string] method. *)
Definition Error (e : error) : string :=
  match e with
  | PathError op path err => op +:+ " " +:+ path +:+ ": " +:+ Errno_Error err
  | errorString s => s
  end.

Definition os_IsNotExist (e : error) : bool :=
  match e with
  | PathError _ _ ENOENT => true
  | _ => false
  end.

(** [fmt.Errorf(format)] and [fmt.Errorf(format, err)] for the formats the
    package uses: the first [%v] verb is replaced by [err.Error()].  Without
    the [%w] verb the result does not wrap its argument. *)
Fixpoint Sprintf_v (format arg : string) : string :=
  match format with
  | EmptyString => EmptyString
  | String "%"%char (String "v"%char rest) => arg +:+ rest
  | String c rest => String c (Sprintf_v rest arg)
  end.

Definition fmt_Errorf0 (format : string) : error := errorString format.

Definition fmt_Errorf (format : string) (err : error) : error :=
  errorString (Sprintf_v format (Error err)).

(** An [io.Reader]: the bytes it delivers, and the error that ends the
    stream in place of [io.EOF], if any. *)
Record Reader : Type := mkReader {
  bytes : list Byte.byte;
  failure : option error
}.

(** [*http.Response]: the header (a [map[string][]string]) and the body. *)
Record Response : Type := mkResponse {
  Header : gmap string (list string);
  Body : Reader
}.

(** A regular file of the local file system, and [os.FileInfo] as far as the
    package reads it. *)
Record FileData : Type := mkFile {
  data : list Byte.byte;
  modTime : Time
}.

Record FileInfo : Type := mkFileInfo {
  ModTime : Time
}.

(** [*os.File]: an open file, named by its path. *)
Record File : Type := mkHandle {
  Name : string
}.

(** The calls that leave the package, in the order they are made. *)
Inductive Event : Type :=
| EvHead (url : string)
| EvGet (url : string)
| EvBodyClose
| EvOpen (path : string)
| EvStat (path : string)
| EvMkdirAll (path : string)
| EvCreate (path : string)
| EvCopy (path : string)
| EvFileClose (path : string)
| EvRead.

(** ** The world the package runs in *)

Record World : Type := mkWorld {
  (* the local file system: the regular files, and the directories with
     their modification times *)
  files : gmap string FileData;
  dirs : gmap string Time;
  (* the local clock, which stamps every write *)
  now : Time;
  (* the remote side: what a HEAD and a GET request are answered with *)
  serve_head : string -> Response + error;
  serve_get : string -> Response + error;
  (* failures of the file system: of resolving a path (these hit every call
     on the path), and of the single calls *)
  lookup_fault : string -> option Errno;
  open_fault : string -> option Errno;
  create_fault : string -> option Errno;
  mkdir_fault : string -> option Errno;
  write_fault : string -> option (nat * Errno);
  (* the calls made so far, oldest first *)
  trace : list Event
}.

Definition set_files (f : gmap string FileData) (w : World) : World :=
  mkWorld f (dirs w) (now w) (serve_head w) (serve_get w) (lookup_fault w)
    (open_fault w) (create_fault w) (mkdir_fault w) (write_fault w) (trace w).

Definition set_dirs (d : gmap string Time) (w : World) : World :=
  mkWorld (files w) d (now w) (serve_head w) (serve_get w) (lookup_fault w)
    (open_fault w) (create_fault w) (mkdir_fault w) (write_fault w) (trace w).

Definition set_trace (t : list Event) (w : World) : World :=
  mkWorld (files w) (dirs w) (now w) (serve_head w) (serve_get w)
    (lookup_fault w) (open_fault w) (create_fault w) (mkdir_fault w)
    (write_fault w) t.

(** Time passes: the local clock moves on by [d]. *)
Definition elapse (d : Z) (w : World) : World :=
  mkWorld (files w) (dirs w) (now w + d) (serve_head w) (serve_get w)
    (lookup_fault w) (open_fault w) (create_fault w) (mkdir_fault w)
    (write_fault w) (trace w).

(** ** The state monad *)

Definition M (A : Type) : Type := World -> A * World.

Definition ret {A : Type} (a : A) : M A := fun w => (a, w).

Definition bind {A B : Type} (m : M A) (k : A -> M B) : M B :=
  fun w => let (a, w') := m w in k a w'.

Declare Scope go_scope.
Delimit Scope go_scope with go.
Notation "x <- m ;; k" := (bind m (fun x => k))
  (at level 100, m at next level, right associativity) : go_scope.
Notation "m ;;; k" := (bind m (fun _ => k))
  (at level 100, right associativity) : go_scope.
Local Open Scope go_scope.

Definition emit (e : Event) : M unit :=
  fun w => (tt, set_trace (trace w ++ [e]) w).

(** [defer cleanup] at the head of [body]: [cleanup] runs when [body] has
    returned, whichever [return] it left through. *)
Definition defer {A : Type} (cleanup : M unit) (body : M A) : M A :=
  a <- body ;; cleanup ;;; ret a.

(** ** net/http *)

Definition http_Head (url : string) : M (Response + error) :=
  emit (EvHead url) ;;; fun w => (serve_head w url, w).

Definition http_Get (url : string) : M (Response + error) :=
  emit (EvGet url) ;;; fun w => (serve_get w url, w).

Definition Body_Close (r : Response) : M unit := emit EvBodyClose.

(** ** os, io, bufio *)

(** Some regular file has a name that [path] continues behind a slash: the
    path leads through a file where it needs a directory. *)
Definition under_file (fs : gmap string FileData) (path : string) : bool :=
  existsb (fun entry => String.prefix (fst entry +:+ "/") path) (map_to_list fs).

(** The error number for a path that names nothing: [ENOTDIR] when it leads
    through a regular file, [ENOENT] otherwise. *)
Definition missing (fs : gmap string FileData) (path : string) : Errno :=
  if under_file fs path then ENOTDIR else ENOENT.

(** A path that does not resolve fails every call with the same error
    number; a path that names neither a file nor a directory fails with
    [ENOTDIR] or [ENOENT]. *)
Definition os_Stat (path : string) : M (FileInfo + error) :=
  emit (EvStat path) ;;;
  fun w =>
    match lookup_fault w path with
    | Some en => (inr (PathError "stat" path en), w)
    | None =>
        match files w !! path with
        | Some f => (inl (mkFileInfo (modTime f)), w)
        | None =>
            match dirs w !! path with
            | Some t => (inl (mkFileInfo t), w)
            | None => (inr (PathError "stat" path (missing (files w) path)), w)
            end
        end
    end.

Definition os_Open (path : string) : M (File + error) :=
  emit (EvOpen path) ;;;
  fun w =>
    match lookup_fault w path with
    | Some en => (inr (PathError "open" path en), w)
    | None =>
        match open_fault w path with
        | Some en => (inr (PathError "open" path en), w)
        | None =>
            match files w !! path with
            | Some _ => (inl (mkHandle path), w)
            | None =>
                match dirs w !! path with
                | Some _ => (inl (mkHandle path), w)
                | None => (inr (PathError "open" path (missing (files w) path)), w)
                end
            end
        end
    end.

Definition File_Close (f : File) : M unit := emit (EvFileClose (Name f)).

(** An open file read as an [io.Reader]: the bytes of the file; a directory
    cannot be read. *)
Definition File_Reader (f : File) : M Reader :=
  fun w =>
    match files w !! Name f with
    | Some d => (mkReader (data d) None, w)
    | None => (mkReader [] (Some (PathError "read" (Name f) EISDIR)), w)
    end.

(** [bufio.NewReader(r)]: buffering delivers the same stream. *)
Definition bufio_NewReader (r : Reader) : Reader := r.

(** [os.MkdirAll(path, perm)]: afterwards [path] is a directory, unless the
    call fails; a directory that is there already is left as it is.  Of the
    directories the call makes only [path] itself is recorded, not the
    missing ancestors it makes on the way. *)
Definition os_MkdirAll (path : string) : M (option error) :=
  emit (EvMkdirAll path) ;;;
  fun w =>
    match mkdir_fault w path with
    | Some en => (Some (PathError "mkdir" path en), w)
    | None =>
        match files w !! path with
        | Some _ => (Some (PathError "mkdir" path ENOTDIR), w)
        | None =>
            match dirs w !! path with
            | Some _ => (None, w)
            | None => (None, set_dirs (<[ path := now w ]> (dirs w)) w)
            end
        end
    end.

(** [os.Create(path)]: the file is created or truncated, in a directory that
    has to exist, and stamped with the local time; a new file stamps its
    directory too.  Without the directory the call fails with [ENOTDIR] when
    the path leads through a regular file, and with [ENOENT] otherwise. *)
Definition os_Create (dir_of : string -> string) (path : string)
  : M (File + error) :=
  emit (EvCreate path) ;;;
  fun w =>
    match lookup_fault w path with
    | Some en => (inr (PathError "open" path en), w)
    | None =>
        match create_fault w path with
        | Some en => (inr (PathError "open" path en), w)
        | None =>
            match dirs w !! dir_of path, dirs w !! path, files w !! path with
            | None, _, _ => (inr (PathError "open" path (missing (files w) path)), w)
            | Some _, Some _, _ => (inr (PathError "open" path EISDIR), w)
            | Some _, None, Some _ =>
                (inl (mkHandle path),
                 set_files (<[ path := mkFile [] (now w) ]> (files w)) w)
            | Some _, None, None =>
                (inl (mkHandle path),
                 set_files (<[ path := mkFile [] (now w) ]> (files w))
                   (set_dirs (<[ dir_of path := now w ]> (dirs w)) w))
            end
        end
    end.

(** [io.Copy(dst, src)]: the bytes of [src] are appended to [dst] until the
    source is exhausted, the source fails, or a write fails; the result is
    the number of bytes written and the first error met. *)
Definition io_Copy (dst : File) (src : Reader) : M (Z * option error) :=
  emit (EvCopy (Name dst)) ;;;
  fun w =>
    let old := match files w !! Name dst with
               | Some d => data d
               | None => []
               end in
    match write_fault w (Name dst) with
    | Some (n, en) =>
        if decide (n < length (bytes src))%nat then
          (Z.of_nat n, Some (PathError "write" (Name dst) en),
           set_files (<[ Name dst := mkFile (old ++ take n (bytes src)) (now w) ]>
                        (files w)) w)
        else
          (Z.of_nat (length (bytes src)), failure src,
           set_files (<[ Name dst := mkFile (old ++ bytes src) (now w) ]>
                        (files w)) w)
    | None =>
        (Z.of_nat (length (bytes src)), failure src,
         set_files (<[ Name dst := mkFile (old ++ bytes src) (now w) ]>
                      (files w)) w)
    end.

(** ** The package *)

Definition httpTimeFormat : string := "Mon, 02 Jan 2006 15:04:05 MST".
Definition httpLastModified : string := "Last-Modified".

Section Localcopy.

(** The dynamic values an [interface{}] can hold; [None] is [nil]. *)
Variable V : Type.

(** [time.Parse(layout, value)] and [filepath.Dir(path)], from Go's
    standard library. *)
Variable time_Parse : string -> string -> Time + error.
Variable filepath_Dir : string -> string.

(** [ReadFunc] reads a value using the given reader. *)
Definition ReadFunc : Type := Reader -> option V * option error.

(** A call of the caller's [ReadFunc]. *)
Definition call (read : ReadFunc) (r : Reader) : M (option V * option error) :=
  emit EvRead ;;; ret (read r).

(** [LoadLocal] loads the local copy from the local file system. *)
Definition LoadLocal (localFilename : string) (read : ReadFunc)
  : M (option V * option error) :=
  o <- os_Open localFilename ;;
  match o with
  | inr err => ret (None, Some err)
  | inl file =>
      defer (File_Close file)
        (r <- File_Reader file ;;
         let in_ := bufio_NewReader r in
         res <- call read in_ ;;
         match res with
         | (_, Some err) => ret (None, Some err)
         | (value, None) => ret (value, None)
         end)
  end.

(** [LoadRemote] loads the resource from the given remote location. *)
Definition LoadRemote (remoteURL : string) (read : ReadFunc)
  : M (option V * option error) :=
  g <- http_Get remoteURL ;;
  match g with
  | inr err => ret (None, Some err)
  | inl resp =>
      defer (Body_Close resp)
        (let in_ := bufio_NewReader (Body resp) in
         res <- call read in_ ;;
         match res with
         | (_, Some err) => ret (None, Some err)
         | (value, None) => ret (value, None)
         end)
  end.

(** [Download] downloads the resource from the given remote URL and stores
    it locally. *)
Definition Download (remoteURL localFilename : string) (read : ReadFunc)
  : M (option error) :=
  g <- http_Get remoteURL ;;
  match g with
  | inr err => ret (Some (fmt_Errorf "failed to download resource: %v" err))
  | inl response =>
      defer (Body_Close response)
        (os_MkdirAll (filepath_Dir localFilename) ;;;
         c <- os_Create filepath_Dir localFilename ;;
         match c with
         | inr err => ret (Some (fmt_Errorf "failed to open local file: %v" err))
         | inl localFile =>
             defer (File_Close localFile)
               (res <- io_Copy localFile (Body response) ;;
                match res with
                | (_, Some err) =>
                    ret (Some (fmt_Errorf "failed to store resource locally: %v" err))
                | (_, None) => ret None
                end)
         end)
  end.

(** [NeedsUpdate] checks whether the local copy needs to be updated from
    the given remote URL. *)
Definition NeedsUpdate (remoteURL localFilename : string)
  : M (bool * option error) :=
  h <- http_Head remoteURL ;;
  match h with
  | inr err => ret (false, Some err)
  | inl response =>
      match Header response !! httpLastModified with
      | Some [] =>
          ret (false, Some (fmt_Errorf0 "Last-Modified header is empty"))
      | Some (first :: _) =>
          match time_Parse httpTimeFormat first with
          | inr err =>
              ret (false,
                   Some (fmt_Errorf "cannot parse Last-Modified header: %v" err))
          | inl lastModified =>
              s <- os_Stat localFilename ;;
              match s with
              | inr err =>
                  if os_IsNotExist err then ret (true, None)
                  else ret (false, Some err)
              | inl localFileInfo =>
                  ret (time_After lastModified (ModTime localFileInfo), None)
              end
          end
      | None =>
          ret (false,
               Some (fmt_Errorf0 "response does not contain a Last-Modified header"))
      end
  end.

(** [Update] updates the local copy from the given remote URL, but only if
    an update is needed. *)
Definition Update (remoteURL localFilename : string) (read : ReadFunc)
  : M (bool * option error) :=
  n <- NeedsUpdate remoteURL localFilename ;;
  match n with
  | (_, Some err) => ret (false, Some err)
  | (false, None) => ret (false, None)
  | (true, None) =>
      err <- Download remoteURL localFilename read ;;
      ret (true, err)
  end.

End Localcopy.

Arguments LoadLocal {V} localFilename read.
Arguments LoadRemote {V} remoteURL read.
Arguments Download {V} filepath_Dir remoteURL localFilename read.
Arguments Update {V} time_Parse filepath_Dir remoteURL localFilename read.
Arguments call {V} read r.

(** ** Reading the trace *)

Definition is_get (e : Event) : bool :=
  match e with EvGet _ => true | _ => false end.

Definition is_head (e : Event) : bool :=
  match e with EvHead _ => true | _ => false end.

Definition is_read (e : Event) : bool :=
  match e with EvRead => true | _ => false end.

Fixpoint count (p : Event -> bool) (t : list Event) : nat :=
  match t with
  | [] => O
  | e :: t' => if p e then S (count p t') else count p t'
  end.

(** The GET requests, the HEAD requests and the [ReadFunc] calls made so
    far. *)
Definition gets (w : World) : nat := count is_get (trace w).
Definition heads (w : World) : nat := count is_head (trace w).
Definition reads (w : World) : nat := count is_read (trace w).

(** What [os.Stat] answers depends on the file system only, not on the calls
    made before it. *)
Definition stat_of (w : World) (path : string) : FileInfo + error :=
  fst (os_Stat path w).

(** Two worlds with the same clock, the same remote side and the same faults:
    they differ in files, directories and trace at most. *)
Definition same_env (w w' : World) : Prop :=
  now w' = now w /\
  serve_head w' = serve_head w /\ serve_get w' = serve_get w /\
  lookup_fault w' = lookup_fault w /\ open_fault w' = open_fault w /\
  create_fault w' = create_fault w /\ mkdir_fault w' = mkdir_fault w /\
  write_fault w' = write_fault w.

(** The world in which [Download] calls [os.Create]: after the GET request
    and the call of [os.MkdirAll]. *)
Definition before_Create (fd : string -> string) (url path : string) (w : World)
  : World :=
  snd (os_MkdirAll (fd path) (snd (http_Get url w))).

(** [e] says which phase failed, in front of the message of its cause. *)
Definition wraps (phase : string) (cause e : error) : Prop :=
  Error e = phase +:+ ": " +:+ Error cause.

(** [e] carries some text of its own in front of the message of its cause. *)
Definition adds_context (cause e : error) : Prop :=
  exists phase : string, phase <> EmptyString /\ Error e = phase +:+ Error cause.

(** ** A sample world

    A server that answers every request with a two-byte resource last
    modified 1000 seconds after the epoch, and a local file system without
    faults.  Times are in seconds since the epoch. *)

Definition sample_date : string := "Thu, 01 Jan 1970 00:16:40 GMT".

Definition sample_Parse (layout value : string) : Time + error :=
  if decide (layout = httpTimeFormat /\ value = sample_date) then inl 1000
  else inr (errorString "parsing time: cannot parse").

Definition sample_Dir (path : string) : string :=
  if decide (path = "data/copy.txt") then "data" else ".".

Definition sample_body : Reader := mkReader [Byte.x68; Byte.x69] None.

Definition sample_response : Response :=
  mkResponse {[ httpLastModified := [sample_date] ]} sample_body.

Definition sample_world (fs : gmap string FileData) (clock : Time) : World :=
  mkWorld fs {[ "." := 0 ]} clock
    (fun _ => inl sample_response) (fun _ => inl sample_response)
    (fun _ => None) (fun _ => None) (fun _ => None) (fun _ => None)
    (fun _ => None) [].

Definition sample_url : string := "http://example.org/resource".
Definition sample_path : string := "data/copy.txt".

(** The local copy was written 50 seconds after the epoch. *)
Definition stale_world : World :=
  sample_world {[ sample_path := mkFile [Byte.x6f] 50 ]} 2000.

(** There is no local copy, and the local clock is behind the server's. *)
Definition behind_world : World := sample_world ∅ 100.

(** There is no local copy, and the local clock is ahead of the server's. *)
Definition ahead_world : World := sample_world ∅ 2000.

(** The server cannot be reached. *)
Definition offline_world : World :=
  mkWorld ∅ {[ "." := 0 ]} 2000
    (fun _ => inr (errorString "connection refused"))
    (fun _ => inr (errorString "connection refused"))
    (fun _ => None) (fun _ => None) (fun _ => None) (fun _ => None)
    (fun _ => None) [].

(** The server answers without a Last-Modified header. *)
Definition headerless_world : World :=
  mkWorld ∅ {[ "." := 0 ]} 2000
    (fun _ => inl (mkResponse ∅ sample_body))
    (fun _ => inl (mkResponse ∅ sample_body))
    (fun _ => None) (fun _ => None) (fun _ => None) (fun _ => None)
    (fun _ => None) [].

(** The local copy is there, and the disk is full after one more byte. *)
Definition full_disk_world : World :=
  mkWorld {[ sample_path := mkFile [Byte.x6f; Byte.x6c; Byte.x64] 50 ]}
    {[ "." := 0; "data" := 0 ]} 2000
    (fun _ => inl sample_response) (fun _ => inl sample_response)
    (fun _ => None) (fun _ => None) (fun _ => None) (fun _ => None)
    (fun _ => Some (1%nat, ENOSPC)) [].


(** The local copy holds what the server serves, and is as old. *)
Definition mirrored_world : World :=
  sample_world {[ sample_path := mkFile [Byte.x68; Byte.x69] 1000 ]} 2000.

(** The server sends two values for Last-Modified; the local copy is as in
    [stale_world]. *)
Definition two_values_response : Response :=
  mkResponse {[ httpLastModified := [sample_date; "Fri, 02 Jan 1970 00:00:00 GMT"] ]}
    sample_body.

Definition two_values_world : World :=
  mkWorld {[ sample_path := mkFile [Byte.x6f] 50 ]} {[ "." := 0 ]} 2000
    (fun _ => inl two_values_response) (fun _ => inl two_values_response)
    (fun _ => None) (fun _ => None) (fun _ => None) (fun _ => None)
    (fun _ => None) [].

(** A regular file has the name of the directory for the local copy. *)
Definition file_in_the_way_world : World :=
  sample_world {[ "data" := mkFile [Byte.x6f] 50 ]} 2000.

(** A [ReadFunc] that returns the number of bytes it was given, and one
    that returns a value together with an error. *)
Definition read_length : Reader -> option nat * option error :=
  fun r => (Some (length (bytes r)), None).

Definition read_partial : Reader -> option nat * option error :=
  fun r => (Some (length (bytes r)), Some (errorString "unexpected end of input")).

(** ** Basic facts *)

Lemma count_app p t u : count p (t ++ u) = (count p t + count p u)%nat.
Proof.
  induction t as [|e t IH]; simpl; [reflexivity|].
  destruct (p e); rewrite IH; reflexivity.
Qed.

Lemma append_cons (c : ascii) (s t : string) :
  String c s +:+ t = String c (s +:+ t).
Proof. reflexivity. Qed.

Lemma append_empty_r (s : string) : s +:+ EmptyString = s.
Proof.
  induction s as [|c s IH]; [reflexivity|].
  rewrite append_cons, IH. reflexivity.
Qed.

Lemma time_After_spec (t u : Time) : time_After t u = true <-> u < t.
Proof. unfold time_After. apply Z.ltb_lt. Qed.

Lemma time_After_not (t u : Time) : time_After t u = false <-> t <= u.
Proof. unfold time_After. rewrite Z.ltb_ge. reflexivity. Qed.

Lemma stat_of_set_trace t w path : stat_of (set_trace t w) path = stat_of w path.
Proof.
  unfold stat_of, os_Stat, bind, emit; simpl.
  destruct (lookup_fault w path); [reflexivity|].
  destruct (files w !! path); [reflexivity|].
  destruct (dirs w !! path); reflexivity.
Qed.

(** [NeedsUpdate], once the HEAD request has been answered with a
    Last-Modified header whose first value parses. *)
Lemma NeedsUpdate_valid_header tp url path w resp first rest remote :
  serve_head w url = inl resp ->
  Header resp !! httpLastModified = Some (first :: rest) ->
  tp httpTimeFormat first = inl remote ->
  NeedsUpdate tp url path w =
    (match stat_of w path with
     | inr err => if os_IsNotExist err then (true, None) else (false, Some err)
     | inl info => (time_After remote (ModTime info), None)
     end,
     set_trace (trace w ++ [EvHead url] ++ [EvStat path]) w).
Proof.
  intros Hhead Hhdr Hparse.
  unfold NeedsUpdate, stat_of, http_Head, os_Stat, bind, emit, ret; simpl.
  rewrite Hhead, Hhdr, Hparse; simpl.
  rewrite <- app_assoc; simpl.
  destruct (lookup_fault w path) as [en|].
  - simpl. destruct en; reflexivity.
  - destruct (files w !! path); [reflexivity|].
    destruct (dirs w !! path); [reflexivity|].
    destruct (missing (files w) path); reflexivity.
Qed.

(** ** The sample world, run *)

Example NeedsUpdate_stale :
  NeedsUpdate sample_Parse sample_url sample_path stale_world =
    ((true, None),
     set_trace [EvHead sample_url; EvStat sample_path] stale_world).
Proof. reflexivity. Qed.

Example Download_writes_body :
  let r := Download sample_Dir sample_url sample_path read_length ahead_world in
  fst r = None /\
  files (snd r) !! sample_path = Some (mkFile [Byte.x68; Byte.x69] 2000) /\
  trace (snd r) =
    [EvGet sample_url; EvMkdirAll "data"; EvCreate sample_path;
     EvCopy sample_path; EvFileClose sample_path; EvBodyClose].
Proof. vm_compute. repeat split. Qed.

Example Download_offline :
  fst (Download sample_Dir sample_url sample_path read_length offline_world) =
    Some (errorString "failed to download resource: connection refused").
Proof. reflexivity. Qed.

Example LoadLocal_reads_file :
  LoadLocal sample_path read_length stale_world =
    ((Some 1%nat, None),
     set_trace [EvOpen sample_path; EvRead; EvFileClose sample_path] stale_world).
Proof. reflexivity. Qed.

Example Update_fresh_copy :
  fst (Update sample_Parse sample_Dir sample_url sample_path read_length
         (sample_world {[ sample_path := mkFile [Byte.x6f] 1000 ]} 2000)) =
    (false, None).
Proof. reflexivity. Qed.

(** ** The freshness check *)

(** C1: when the HEAD request is answered with a Last-Modified header whose
    first value parses and the local file can be stat'ed, [NeedsUpdate]
    returns [(true, nil)] exactly when the remote modification time is
    strictly after the local one, and [(false, nil)] when it is before or
    equal. *)
Theorem NeedsUpdate_compares_times tp url path w resp first rest remote info :
  serve_head w url = inl resp ->
  Header resp !! httpLastModified = Some (first :: rest) ->
  tp httpTimeFormat first = inl remote ->
  stat_of w path = inl info ->
  (fst (NeedsUpdate tp url path w) = (true, None) <-> ModTime info < remote) /\
  (remote <= ModTime info -> fst (NeedsUpdate tp url path w) = (false, None)).
Proof.
  intros Hhead Hhdr Hparse Hstat.
  rewrite (NeedsUpdate_valid_header _ _ _ _ _ _ _ _ Hhead Hhdr Hparse), Hstat.
  simpl. split.
  - rewrite <- time_After_spec. split; [congruence | intros ->; reflexivity].
  - intros Hle. apply time_After_not in Hle. rewrite Hle. reflexivity.
Qed.

Lemma NeedsUpdate_compares_times_witness :
  fst (NeedsUpdate sample_Parse sample_url sample_path stale_world) = (true, None) <->
  50 < 1000.
Proof.
  apply (NeedsUpdate_compares_times sample_Parse sample_url sample_path
           stale_world sample_response sample_date [] 1000 (mkFileInfo 50));
    reflexivity.
Defined.

(** C3: when the HEAD request succeeds, [NeedsUpdate] fails with one error
    when the response has no Last-Modified header and with another when the
    header is there without a value; the two can be told apart by their
    messages.  A header whose first value is the empty text that
    [time.Parse] rejects fails with a third message, which is not the one of
    the missing header either. *)
Theorem NeedsUpdate_header_errors tp url path w resp :
  serve_head w url = inl resp ->
  let missing := errorString "response does not contain a Last-Modified header" in
  let empty := errorString "Last-Modified header is empty" in
  (Header resp !! httpLastModified = None ->
   fst (NeedsUpdate tp url path w) = (false, Some missing)) /\
  (Header resp !! httpLastModified = Some [] ->
   fst (NeedsUpdate tp url path w) = (false, Some empty)) /\
  Error missing <> Error empty /\
  (forall rest err,
     Header resp !! httpLastModified = Some (EmptyString :: rest) ->
     tp httpTimeFormat EmptyString = inr err ->
     exists e, fst (NeedsUpdate tp url path w) = (false, Some e) /\
               wraps "cannot parse Last-Modified header" err e /\
               Error e <> Error missing).
Proof.
  intros Hhead missing empty.
  unfold NeedsUpdate, http_Head, bind, emit, ret; simpl. rewrite Hhead.
  repeat split.
  - intros ->. reflexivity.
  - intros ->. reflexivity.
  - discriminate.
  - intros rest err -> ->. eexists. split; [reflexivity|]. split.
    + unfold wraps, fmt_Errorf. simpl. rewrite append_empty_r. reflexivity.
    + discriminate.
Qed.

Lemma NeedsUpdate_header_errors_witness :
  fst (NeedsUpdate sample_Parse sample_url sample_path
         headerless_world)
  = (false, Some (errorString "response does not contain a Last-Modified header")).
Proof.
  eapply NeedsUpdate_header_errors; reflexivity.
Defined.

(** C4: with a valid Last-Modified header, [NeedsUpdate] on a local path that
    does not exist returns [(true, nil)]; when [os.Stat] fails for another
    reason, that very error is returned. *)
Theorem NeedsUpdate_stat_failure tp url path w resp first rest remote err :
  serve_head w url = inl resp ->
  Header resp !! httpLastModified = Some (first :: rest) ->
  tp httpTimeFormat first = inl remote ->
  stat_of w path = inr err ->
  (os_IsNotExist err = true -> fst (NeedsUpdate tp url path w) = (true, None)) /\
  (os_IsNotExist err = false -> fst (NeedsUpdate tp url path w) = (false, Some err)).
Proof.
  intros Hhead Hhdr Hparse Hstat.
  rewrite (NeedsUpdate_valid_header _ _ _ _ _ _ _ _ Hhead Hhdr Hparse), Hstat.
  simpl. split; intros ->; reflexivity.
Qed.

Lemma NeedsUpdate_stat_failure_witness :
  fst (NeedsUpdate sample_Parse sample_url sample_path ahead_world) = (true, None).
Proof.
  eapply (NeedsUpdate_stat_failure sample_Parse sample_url sample_path ahead_world
            sample_response sample_date [] 1000
            (PathError "stat" sample_path ENOENT)); reflexivity.
Defined.

(** C10: whenever [NeedsUpdate] returns an error, the boolean it returns with
    it is [false]. *)
Theorem NeedsUpdate_error_false tp url path w b err w' :
  NeedsUpdate tp url path w = ((b, Some err), w') -> b = false.
Proof.
  unfold NeedsUpdate, http_Head, os_Stat, bind, emit, ret; simpl.
  intros H.
  destruct (serve_head w url) as [resp|e]; [|congruence].
  destruct (Header resp !! httpLastModified) as [[|first rest]|]; try congruence.
  destruct (tp httpTimeFormat first) as [remote|e]; [|congruence].
  simpl in H.
  destruct (lookup_fault w path) as [en|].
  - destruct en; simpl in H; congruence.
  - destruct (files w !! path); [simpl in H; congruence|].
    destruct (dirs w !! path); [simpl in H; congruence|].
    destruct (missing (files w) path); simpl in H; congruence.
Qed.

Lemma NeedsUpdate_error_false_witness :
  fst (fst (NeedsUpdate sample_Parse sample_url sample_path offline_world)) = false.
Proof.
  apply (NeedsUpdate_error_false sample_Parse sample_url sample_path
           offline_world _ (errorString "connection refused")
           (snd (NeedsUpdate sample_Parse sample_url sample_path offline_world))).
  reflexivity.
Defined.

(** ** What the calls leave behind *)

(** [NeedsUpdate] changes nothing but the trace, to which it adds the HEAD
    request and, when it gets that far, the stat of the local path. *)
Lemma NeedsUpdate_world tp url path w :
  exists t, snd (NeedsUpdate tp url path w) = set_trace (trace w ++ t) w /\
            (t = [EvHead url] \/ t = [EvHead url; EvStat path]).
Proof.
  unfold NeedsUpdate, http_Head, os_Stat, bind, emit, ret; simpl.
  destruct (serve_head w url) as [resp|e]; [|eexists; split; [reflexivity | now left]].
  destruct (Header resp !! httpLastModified) as [[|first rest]|];
    try (eexists; split; [reflexivity | now left]).
  destruct (tp httpTimeFormat first) as [remote|e];
    [|eexists; split; [reflexivity | now left]].
  simpl. exists [EvHead url; EvStat path]. split; [|now right].
  rewrite <- app_assoc; simpl.
  destruct (lookup_fault w path) as [en|].
  - destruct en; reflexivity.
  - destruct (files w !! path); [reflexivity|].
    destruct (dirs w !! path); [reflexivity|].
    destruct (missing (files w) path); reflexivity.
Qed.

Lemma NeedsUpdate_frame tp url path w :
  let w1 := snd (NeedsUpdate tp url path w) in
  files w1 = files w /\ dirs w1 = dirs w /\ gets w1 = gets w.
Proof.
  destruct (NeedsUpdate_world tp url path w) as [t [-> Ht]]; simpl.
  repeat split. unfold gets; simpl. rewrite count_app.
  destruct Ht as [-> | ->]; simpl; lia.
Qed.

Lemma os_Open_world path w :
  snd (os_Open path w) = set_trace (trace w ++ [EvOpen path]) w.
Proof.
  unfold os_Open, bind, emit; simpl.
  destruct (lookup_fault w path); [reflexivity|].
  destruct (open_fault w path); [reflexivity|].
  destruct (files w !! path); [reflexivity|].
  destruct (dirs w !! path); reflexivity.
Qed.

Lemma File_Reader_world f w : snd (File_Reader f w) = w.
Proof. unfold File_Reader. destruct (files w !! Name f); reflexivity. Qed.

Lemma LoadLocal_world {V} path (read : ReadFunc V) w :
  exists t, snd (LoadLocal path read w) = set_trace (trace w ++ t) w /\
            count is_get t = O /\ count is_head t = O.
Proof.
  unfold LoadLocal, defer, File_Close, call, bind, emit, ret.
  pose proof (os_Open_world path w) as Ho.
  destruct (os_Open path w) as [[file|e] w0]; simpl in Ho; subst w0;
    [|exists [EvOpen path]; repeat split; reflexivity].
  pose proof (File_Reader_world file (set_trace (trace w ++ [EvOpen path]) w)) as Hr.
  destruct (File_Reader file _) as [r w1]; simpl in Hr; subst w1.
  exists [EvOpen path; EvRead; EvFileClose (Name file)].
  split; [|split; reflexivity].
  destruct (read _) as [v [e|]]; simpl; rewrite <- !app_assoc; reflexivity.
Qed.

Lemma LoadRemote_world {V} url (read : ReadFunc V) w :
  exists t, snd (LoadRemote url read w) = set_trace (trace w ++ t) w /\
            count is_get t = 1%nat /\ count is_head t = O.
Proof.
  unfold LoadRemote, http_Get, defer, Body_Close, call, bind, emit, ret; simpl.
  destruct (serve_get w url) as [resp|e];
    [|exists [EvGet url]; repeat split; reflexivity].
  exists [EvGet url; EvRead; EvBodyClose].
  split; [|split; reflexivity].
  destruct (read _) as [v [e|]]; simpl; rewrite <- !app_assoc; reflexivity.
Qed.

(** ** Download *)

Lemma os_MkdirAll_trace p w :
  trace (snd (os_MkdirAll p w)) = (trace w ++ [EvMkdirAll p])%list.
Proof.
  unfold os_MkdirAll, bind, emit; simpl.
  destruct (mkdir_fault w p); [reflexivity|].
  destruct (files w !! p); [reflexivity|].
  destruct (dirs w !! p); reflexivity.
Qed.

Lemma os_Create_trace fd path w :
  trace (snd (os_Create fd path w)) = (trace w ++ [EvCreate path])%list.
Proof.
  unfold os_Create, bind, emit; simpl.
  destruct (lookup_fault w path); [reflexivity|].
  destruct (create_fault w path); [reflexivity|].
  destruct (dirs w !! fd path); [|reflexivity].
  destruct (dirs w !! path); [reflexivity|].
  destruct (files w !! path); reflexivity.
Qed.

Lemma io_Copy_trace f src w :
  trace (snd (io_Copy f src w)) = (trace w ++ [EvCopy (Name f)])%list.
Proof.
  unfold io_Copy, bind, emit; simpl.
  destruct (write_fault w (Name f)) as [[n en]|]; [case_decide|]; reflexivity.
Qed.

(** [Download] makes one GET request, no HEAD request and no call of a
    [ReadFunc], whichever way it returns. *)
Lemma Download_trace {V} fd url path (read : ReadFunc V) w :
  exists t, trace (snd (Download fd url path read w)) = (trace w ++ t)%list /\
            count is_get t = 1%nat /\ count is_head t = O /\ count is_read t = O.
Proof.
  unfold Download, defer, Body_Close, File_Close, bind, ret.
  destruct (http_Get url w) as [g w0] eqn:Eg.
  assert (H0 : trace w0 = (trace w ++ [EvGet url])%list)
    by (unfold http_Get, bind, emit in Eg; simpl in Eg; inversion Eg; reflexivity).
  destruct g as [resp|e];
    [|exists [EvGet url]; simpl; rewrite H0; repeat split].
  pose proof (os_MkdirAll_trace (fd path) w0) as Hm.
  destruct (os_MkdirAll (fd path) w0) as [m wm]; simpl in Hm.
  pose proof (os_Create_trace fd path wm) as Hc.
  destruct (os_Create fd path wm) as [[localFile|e] wc]; simpl in Hc.
  - pose proof (io_Copy_trace localFile (Body resp) wc) as Hi.
    destruct (io_Copy localFile (Body resp) wc) as [[n oe] wi]; simpl in Hi.
    exists [EvGet url; EvMkdirAll (fd path); EvCreate path;
            EvCopy (Name localFile); EvFileClose (Name localFile); EvBodyClose].
    split; [|repeat split].
    destruct oe; simpl; rewrite Hi, Hc, Hm, H0, <- !app_assoc; reflexivity.
  - exists [EvGet url; EvMkdirAll (fd path); EvCreate path; EvBodyClose].
    split; [|repeat split].
    simpl. rewrite Hc, Hm, H0, <- !app_assoc. reflexivity.
Qed.

(** C5: [Download] never calls the [ReadFunc] it is given: whichever two
    functions are passed, the returned error and the world left behind (the
    written file included) are the same, and the trace gains no call of a
    [ReadFunc]. *)
Theorem Download_ignores_read {V} fd url path (read1 read2 : ReadFunc V) w :
  Download fd url path read1 w = Download fd url path read2 w /\
  reads (snd (Download fd url path read1 w)) = reads w.
Proof.
  split; [reflexivity|].
  destruct (Download_trace fd url path read1 w) as (t & Ht & _ & _ & Hr).
  unfold reads. rewrite Ht, count_app, Hr. lia.
Qed.

(** ** Synchronize *)

(** C2: [Update] composes the freshness check and the download.  An error of
    [NeedsUpdate] is returned as it is, and a [false] gives [(false, nil)];
    in both cases [Update] ends in the very world [NeedsUpdate] ended in, in
    which no GET request has been made and no file has changed.  On [true]
    it runs [Download], which makes the one GET request, and returns [true]
    with whatever [Download] returned. *)
Theorem Update_composes {V} tp fd url path (read : ReadFunc V) w :
  match NeedsUpdate tp url path w with
  | ((_, Some err), w1) =>
      Update tp fd url path read w = ((false, Some err), w1) /\
      gets w1 = gets w /\ files w1 = files w /\ dirs w1 = dirs w
  | ((false, None), w1) =>
      Update tp fd url path read w = ((false, None), w1) /\
      gets w1 = gets w /\ files w1 = files w /\ dirs w1 = dirs w
  | ((true, None), w1) =>
      Update tp fd url path read w =
        (let (err, w2) := Download fd url path read w1 in ((true, err), w2)) /\
      gets (snd (Update tp fd url path read w)) = S (gets w)
  end.
Proof.
  pose proof (NeedsUpdate_frame tp url path w) as Hframe.
  unfold Update, bind.
  destruct (NeedsUpdate tp url path w) as [[b [e|]] w1]; simpl in *;
    destruct Hframe as (Hf & Hd & Hg).
  - destruct b; auto.
  - destruct b; [|auto].
    pose proof (Download_trace fd url path read w1) as (t & Ht & Hget & _).
    destruct (Download fd url path read w1) as [err w2]; simpl in *.
    split; [reflexivity|].
    unfold gets in *. rewrite Ht, count_app, Hget, Hg. lia.
Qed.

(** ** The local copy *)

(** C7: [NeedsUpdate] writes nothing: the files (their bytes and modification
    times) and the directories are the same after the call.  [Update] leaves
    them untouched whenever the freshness check returns an error or [false].
    [LoadLocal] and [LoadRemote] write nothing either, which leaves
    [Download], alone or through [Update], as the only writer. *)
Theorem only_Download_writes {V} tp fd url path (read : ReadFunc V) w :
  (files (snd (NeedsUpdate tp url path w)) = files w /\
   dirs (snd (NeedsUpdate tp url path w)) = dirs w) /\
  match fst (NeedsUpdate tp url path w) with
  | (true, None) => True
  | _ => files (snd (Update tp fd url path read w)) = files w /\
         dirs (snd (Update tp fd url path read w)) = dirs w
  end /\
  (files (snd (LoadLocal path read w)) = files w /\
   dirs (snd (LoadLocal path read w)) = dirs w) /\
  (files (snd (LoadRemote url read w)) = files w /\
   dirs (snd (LoadRemote url read w)) = dirs w).
Proof.
  pose proof (NeedsUpdate_frame tp url path w) as (Hf & Hd & _).
  split; [split; assumption|]. split.
  - unfold Update, bind.
    destruct (NeedsUpdate tp url path w) as [[b [e|]] w1]; simpl in *.
    + destruct b; split; assumption.
    + destruct b; [exact I | split; assumption].
  - split.
    + destruct (LoadLocal_world path read w) as [t [-> _]]. split; reflexivity.
    + destruct (LoadRemote_world url read w) as [t [-> _]]. split; reflexivity.
Qed.

(** ** The calls into the file system, one by one *)

Lemma same_env_refl w : same_env w w.
Proof. repeat split. Qed.

Lemma same_env_trans w1 w2 w3 : same_env w1 w2 -> same_env w2 w3 -> same_env w1 w3.
Proof.
  unfold same_env. intros (?&?&?&?&?&?&?&?) (?&?&?&?&?&?&?&?).
  repeat split; congruence.
Qed.

Lemma emit_env e w : same_env w (snd (emit e w)) /\ files (snd (emit e w)) = files w.
Proof. repeat split. Qed.

Lemma http_Get_env url w :
  same_env w (snd (http_Get url w)) /\ files (snd (http_Get url w)) = files w.
Proof. repeat split. Qed.

Lemma os_MkdirAll_env p w :
  same_env w (snd (os_MkdirAll p w)) /\ files (snd (os_MkdirAll p w)) = files w.
Proof.
  unfold os_MkdirAll, bind, emit; simpl.
  destruct (mkdir_fault w p); [repeat split|].
  destruct (files w !! p); [repeat split|].
  destruct (dirs w !! p); repeat split.
Qed.

Lemma os_Create_env fd path w : same_env w (snd (os_Create fd path w)).
Proof.
  unfold os_Create, bind, emit; simpl.
  destruct (lookup_fault w path); [repeat split|].
  destruct (create_fault w path); [repeat split|].
  destruct (dirs w !! fd path); [|repeat split].
  destruct (dirs w !! path); [repeat split|].
  destruct (files w !! path); repeat split.
Qed.

(** A file that [os.Create] returns resolves, is empty and carries the local
    time. *)
Lemma os_Create_ok fd path w f w' :
  os_Create fd path w = (inl f, w') ->
  Name f = path /\ lookup_fault w path = None /\
  files w' !! path = Some (mkFile [] (now w)).
Proof.
  unfold os_Create, bind, emit; simpl.
  destruct (lookup_fault w path); [congruence|].
  destruct (create_fault w path); [congruence|].
  destruct (dirs w !! fd path); [|congruence].
  destruct (dirs w !! path); [congruence|].
  destruct (files w !! path);
    intros Heq; inversion Heq; subst; clear Heq; simpl;
    (repeat split; apply lookup_insert_eq).
Qed.

(** Whatever [io.Copy] returns, the destination afterwards is a file that
    carries the local time. *)
Lemma io_Copy_env f src w :
  same_env w (snd (io_Copy f src w)) /\
  exists d, files (snd (io_Copy f src w)) !! Name f = Some (mkFile d (now w)).
Proof.
  unfold io_Copy, bind, emit; simpl.
  destruct (write_fault w (Name f)) as [[n en]|]; [case_decide|]; simpl;
    (split; [repeat split | eexists; apply lookup_insert_eq]).
Qed.

(** When [Download] succeeds, the local path resolves and names a file that
    carries the local time of the download; the remote side and the faults
    are as before. *)
Lemma Download_success {V} fd url path (read : ReadFunc V) w w1 :
  Download fd url path read w = (None, w1) ->
  same_env w w1 /\ lookup_fault w path = None /\
  exists d, files w1 !! path = Some (mkFile d (now w)).
Proof.
  unfold Download, defer, Body_Close, File_Close, bind, ret.
  destruct (http_Get url w) as [g w0] eqn:Eg.
  pose proof (http_Get_env url w) as [Henv0 _]. rewrite Eg in Henv0; simpl in Henv0.
  destruct g as [resp|e]; [|congruence].
  destruct (os_MkdirAll (fd path) w0) as [m wm] eqn:Em.
  pose proof (os_MkdirAll_env (fd path) w0) as [Henvm _].
  rewrite Em in Henvm; simpl in Henvm.
  destruct (os_Create fd path wm) as [c wc] eqn:Ec.
  pose proof (os_Create_env fd path wm) as Henvc. rewrite Ec in Henvc; simpl in Henvc.
  destruct c as [localFile|e]; [|simpl; congruence].
  apply os_Create_ok in Ec as (Hname & Hres & _).
  destruct (io_Copy localFile (Body resp) wc) as [[n oe] wi] eqn:Ei.
  pose proof (io_Copy_env localFile (Body resp) wc) as [Henvi [d Hd]].
  rewrite Ei in Henvi, Hd; simpl in Henvi, Hd.
  destruct oe as [e|]; simpl; [congruence|].
  intros H. inversion H; subst; clear H. simpl.
  assert (Henv : same_env w wi)
    by (eapply same_env_trans; [|exact Henvi];
        eapply same_env_trans; [|exact Henvc];
        eapply same_env_trans; [exact Henv0 | exact Henvm]).
  split; [exact Henv|]. split.
  - destruct Henv0 as (_&_&_&Hl&_). destruct Henvm as (_&_&_&Hl'&_).
    rewrite <- Hres. rewrite Hl', Hl. reflexivity.
  - exists d. rewrite Hd. do 2 f_equal.
    destruct Henv0 as (Hn0&_). destruct Henvm as (Hnm&_). destruct Henvc as (Hnc&_).
    congruence.
Qed.

(** ** Synchronizing twice *)

(** C8, as the code has it: when the first [Update] downloads and succeeds,
    and the remote modification time is not after the local time at which
    the file was written, the first call makes exactly one GET request and a
    second call, at any later time and with the remote side unchanged,
    returns [(false, nil)] and makes none. *)
Theorem Update_twice {V} tp fd url path (read : ReadFunc V) w w1
    resp first rest remote d :
  serve_head w url = inl resp ->
  Header resp !! httpLastModified = Some (first :: rest) ->
  tp httpTimeFormat first = inl remote ->
  Update tp fd url path read w = ((true, None), w1) ->
  remote <= now w ->
  gets w1 = S (gets w) /\
  fst (Update tp fd url path read (elapse d w1)) = (false, None) /\
  gets (snd (Update tp fd url path read (elapse d w1))) = gets w1.
Proof.
  intros Hhead Hhdr Hparse Hfirst Hle.
  unfold Update, bind in Hfirst.
  pose proof (NeedsUpdate_world tp url path w) as (t & Hw0 & Ht).
  pose proof (NeedsUpdate_frame tp url path w) as (_ & _ & Hg0).
  destruct (NeedsUpdate tp url path w) as [[b oe] w0]; simpl in Hw0, Hg0.
  destruct oe as [e|]; [destruct b; discriminate|].
  destruct b; [|discriminate].
  destruct (Download fd url path read w0) as [err w1'] eqn:Ed.
  unfold ret in Hfirst. inversion Hfirst; subst err w1'; clear Hfirst.
  pose proof (Download_trace fd url path read w0) as (t1 & Ht1 & Hget1 & _).
  rewrite Ed in Ht1; simpl in Ht1.
  apply Download_success in Ed as (Henv & Hres & d0 & Hfile).
  assert (Hg1 : gets w1 = S (gets w)).
  { unfold gets in *. rewrite Ht1, count_app, Hget1, Hg0. lia. }
  split; [exact Hg1|].
  destruct Henv as (Hnow & Hsh & _ & Hlf & _).
  assert (Hhead2 : serve_head (elapse d w1) url = inl resp).
  { simpl. rewrite Hsh, Hw0. simpl. exact Hhead. }
  assert (Hstat : stat_of (elapse d w1) path = inl (mkFileInfo (now w))).
  { unfold stat_of, os_Stat, bind, emit; simpl.
    rewrite Hlf, Hres, Hfile, Hw0. reflexivity. }
  unfold Update, bind.
  rewrite (NeedsUpdate_valid_header _ _ _ _ _ _ _ _ Hhead2 Hhdr Hparse), Hstat.
  simpl. apply time_After_not in Hle. rewrite Hle. simpl.
  split; [reflexivity|].
  unfold gets; simpl. rewrite count_app. simpl. lia.
Qed.

Lemma Update_twice_witness :
  fst (Update sample_Parse sample_Dir sample_url sample_path read_length
         (elapse 60 (snd (Update sample_Parse sample_Dir sample_url sample_path
                            read_length ahead_world))))
  = (false, None).
Proof.
  eapply (Update_twice sample_Parse sample_Dir sample_url sample_path read_length
            ahead_world _ sample_response sample_date [] 1000 60);
    [reflexivity | reflexivity | reflexivity | | vm_compute; discriminate].
  vm_compute. reflexivity.
Defined.

(** C8 fails on a Last-Modified time ahead of the local clock: the file the
    first call writes is stamped with the local time, so it is older than the
    remote resource again, and the second call downloads once more. *)
Lemma Update_twice_downloads_twice :
  let first := Update sample_Parse sample_Dir sample_url sample_path read_length
                 behind_world in
  let second := Update sample_Parse sample_Dir sample_url sample_path read_length
                  (snd first) in
  fst first = (true, None) /\ gets (snd first) = 1%nat /\
  serve_head (snd first) sample_url = serve_head behind_world sample_url /\
  fst second = (true, None) /\ gets (snd second) = 2%nat /\
  fst second <> (false, None).
Proof.
  vm_compute. repeat split; discriminate.
Qed.

(** ** Loading *)

(** C6, as the code has it: once the file is open, [LoadLocal] returns the
    value of the [ReadFunc] unchanged when it reports no error; when it
    reports an error, that error is returned unchanged and the value is
    [nil], whatever value came with the error.  [LoadRemote] does the same
    once the GET request has succeeded. *)
Theorem Load_returns_what_read_returns {V} path url (read : ReadFunc V) w :
  (forall file r,
     fst (os_Open path w) = inl file ->
     fst (File_Reader file w) = r ->
     fst (LoadLocal path read w) =
       match read r with
       | (_, Some err) => (None, Some err)
       | (value, None) => (value, None)
       end) /\
  (forall resp,
     serve_get w url = inl resp ->
     fst (LoadRemote url read w) =
       match read (Body resp) with
       | (_, Some err) => (None, Some err)
       | (value, None) => (value, None)
       end).
Proof.
  split.
  - intros file r Hopen Hreader.
    unfold LoadLocal, defer, File_Close, call, bufio_NewReader, bind, emit, ret.
    pose proof (os_Open_world path w) as Ho.
    destruct (os_Open path w) as [o w0]; simpl in Hopen, Ho; subst o w0.
    assert (Hr : fst (File_Reader file (set_trace (trace w ++ [EvOpen path]) w)) = r)
      by (rewrite <- Hreader; unfold File_Reader; simpl;
          destruct (files w !! Name file); reflexivity).
    destruct (File_Reader file (set_trace (trace w ++ [EvOpen path]) w))
      as [r' w1] eqn:Er.
    simpl in Hr. subst r'.
    destruct (read r) as [v [e|]]; reflexivity.
  - intros resp Hget.
    unfold LoadRemote, http_Get, defer, Body_Close, call, bufio_NewReader,
      bind, emit, ret; simpl.
    rewrite Hget.
    destruct (read _) as [v [e|]]; reflexivity.
Qed.

Lemma Load_returns_what_read_returns_witness :
  fst (LoadLocal sample_path read_length stale_world) = (Some 1%nat, None) /\
  fst (LoadRemote sample_url read_length stale_world) = (Some 2%nat, None).
Proof.
  destruct (Load_returns_what_read_returns sample_path sample_url read_length
              stale_world) as [Hlocal Hremote].
  split.
  - apply (Hlocal (mkHandle sample_path) (mkReader [Byte.x6f] None));
      reflexivity.
  - apply (Hremote sample_response). reflexivity.
Defined.

(** C6 fails for a [ReadFunc] that returns a value together with an error:
    [LoadLocal] and [LoadRemote] return [nil] in place of that value. *)
Lemma Load_drops_value_on_error :
  fst (os_Open sample_path stale_world) = inl (mkHandle sample_path) /\
  fst (File_Reader (mkHandle sample_path) stale_world) = mkReader [Byte.x6f] None /\
  read_partial (mkReader [Byte.x6f] None) =
    (Some 1%nat, Some (errorString "unexpected end of input")) /\
  fst (LoadLocal sample_path read_partial stale_world) =
    (None, Some (errorString "unexpected end of input")) /\
  fst (LoadLocal sample_path read_partial stale_world) <>
    read_partial (mkReader [Byte.x6f] None) /\
  serve_get stale_world sample_url = inl sample_response /\
  fst (LoadRemote sample_url read_partial stale_world) <>
    read_partial (Body sample_response).
Proof.
  vm_compute. repeat split; discriminate.
Qed.

(** ** Errors *)

Lemma length_append (s t : string) :
  String.length (s +:+ t) = (String.length s + String.length t)%nat.
Proof.
  induction s as [|c s IH]; [reflexivity|].
  rewrite append_cons. simpl. rewrite IH. reflexivity.
Qed.

Lemma append_assoc (s t u : string) : (s +:+ t) +:+ u = s +:+ t +:+ u.
Proof.
  induction s as [|c s IH]; [reflexivity|].
  rewrite !append_cons, IH. reflexivity.
Qed.

(** An error handed on as it is carries nothing in front of its cause. *)
Lemma no_context_in_itself (c : error) : ~ adds_context c c.
Proof.
  intros (phase & Hne & Heq).
  apply (f_equal String.length) in Heq. rewrite length_append in Heq.
  destruct phase as [|a phase]; [congruence|]. simpl in Heq. lia.
Qed.

Lemma wraps_adds_context phase cause e : wraps phase cause e -> adds_context cause e.
Proof.
  unfold wraps, adds_context. intros H. exists (phase +:+ ": "). split.
  - destruct phase; discriminate.
  - rewrite H. symmetry. apply append_assoc.
Qed.

(** ** Download, step by step *)

(** The three ways through [Download]: the GET request fails; the local file
    cannot be created; the body is copied, with or without an error. *)
Lemma Download_cases {V} fd url path (read : ReadFunc V) w :
  match serve_get w url with
  | inr c =>
      Download fd url path read w =
        (Some (fmt_Errorf "failed to download resource: %v" c),
         set_trace (trace w ++ [EvGet url]) w)
  | inl resp =>
      let wm := snd (os_MkdirAll (fd path) (set_trace (trace w ++ [EvGet url]) w)) in
      match os_Create fd path wm with
      | (inr c, wc) =>
          Download fd url path read w =
            (Some (fmt_Errorf "failed to open local file: %v" c),
             set_trace (trace wc ++ [EvBodyClose]) wc)
      | (inl localFile, wc) =>
          match io_Copy localFile (Body resp) wc with
          | ((_, oe), wi) =>
              Download fd url path read w =
                (option_map (fmt_Errorf "failed to store resource locally: %v") oe,
                 set_trace (trace wi ++ [EvFileClose (Name localFile); EvBodyClose]) wi)
          end
      end
  end.
Proof.
  unfold Download, defer, Body_Close, File_Close, bind, ret.
  unfold http_Get at 1. unfold bind, emit at 1. simpl.
  destruct (serve_get w url) as [resp|c]; [|reflexivity].
  simpl.
  destruct (os_MkdirAll (fd path) _) as [m wm]; simpl.
  destruct (os_Create fd path wm) as [[localFile|c] wc]; [|reflexivity].
  destruct (io_Copy localFile (Body resp) wc) as [[n [c|]] wi]; simpl;
    rewrite <- app_assoc; reflexivity.
Qed.

Lemma os_MkdirAll_dirs p w :
  dirs (snd (os_MkdirAll p w)) = dirs w \/
  (mkdir_fault w p = None /\ dirs w !! p = None /\
   dirs (snd (os_MkdirAll p w)) = <[ p := now w ]> (dirs w)).
Proof.
  unfold os_MkdirAll, bind, emit; simpl.
  destruct (mkdir_fault w p); [left; reflexivity|].
  destruct (files w !! p); [left; reflexivity|].
  destruct (dirs w !! p); [left; reflexivity|].
  right. repeat split.
Qed.

(** [os.Create] either fails and changes no file, or leaves the file empty
    and stamped, and every other file as it was. *)
Lemma os_Create_files fd path w :
  match os_Create fd path w with
  | (inr _, w') => files w' = files w /\ dirs w' = dirs w
  | (inl f, w') =>
      Name f = path /\ files w' = <[ path := mkFile [] (now w) ]> (files w)
  end.
Proof.
  unfold os_Create, bind, emit; simpl.
  destruct (lookup_fault w path); [split; reflexivity|].
  destruct (create_fault w path); [split; reflexivity|].
  destruct (dirs w !! fd path); [|split; reflexivity].
  destruct (dirs w !! path); [split; reflexivity|].
  destruct (files w !! path); split; reflexivity.
Qed.

(** [io.Copy] writes a prefix of the source behind what the file holds, and
    all of it when it returns no error. *)
Lemma io_Copy_files f src w :
  let old := match files w !! Name f with Some d => data d | None => [] end in
  exists d,
    d `prefix_of` bytes src /\
    files (snd (io_Copy f src w)) =
      <[ Name f := mkFile (old ++ d) (now w) ]> (files w) /\
    dirs (snd (io_Copy f src w)) = dirs w /\
    (snd (fst (io_Copy f src w)) = None -> d = bytes src /\ failure src = None).
Proof.
  unfold io_Copy, bind, emit; simpl.
  destruct (write_fault w (Name f)) as [[n en]|]; [case_decide|]; simpl.
  - exists (take n (bytes src)). split; [apply prefix_take|].
    repeat split; discriminate.
  - exists (bytes src). repeat split; auto.
  - exists (bytes src). repeat split; auto.
Qed.

(** Between the GET request and the creation of the file, the clock, the
    faults and the files are as they were. *)
Lemma before_Create_env (fd : string -> string) url (path : string) w :
  let wm := snd (os_MkdirAll (fd path) (set_trace (trace w ++ [EvGet url]) w)) in
  same_env w wm /\ files wm = files w.
Proof.
  simpl.
  destruct (os_MkdirAll_env (fd path) (set_trace (trace w ++ [EvGet url]) w))
    as [Henv Hfiles].
  split; [|exact Hfiles].
  eapply same_env_trans; [|exact Henv]. repeat split.
Qed.

(** What [Download] does to the files, once the GET request is answered. *)
Lemma Download_files {V} fd url path (read : ReadFunc V) w resp :
  serve_get w url = inl resp ->
  (exists c, fst (Download fd url path read w) =
               Some (fmt_Errorf "failed to open local file: %v" c) /\
             files (snd (Download fd url path read w)) = files w) \/
  (exists d, d `prefix_of` bytes (Body resp) /\
             files (snd (Download fd url path read w)) =
               <[ path := mkFile d (now w) ]> (files w) /\
             (fst (Download fd url path read w) = None ->
              d = bytes (Body resp) /\ failure (Body resp) = None)).
Proof.
  intros Hget.
  pose proof (Download_cases fd url path read w) as Hcases.
  rewrite Hget in Hcases; simpl in Hcases.
  pose proof (before_Create_env fd url path w) as [Henvm Hfilesm]; simpl in Henvm, Hfilesm.
  set (wm := snd (os_MkdirAll (fd path) (set_trace (trace w ++ [EvGet url]) w))) in *.
  pose proof (os_Create_files fd path wm) as Hcreate.
  pose proof (os_Create_env fd path wm) as Henvc.
  destruct (os_Create fd path wm) as [[localFile|c] wc]; simpl in Henvc.
  - right. destruct Hcreate as [Hname Hfilesc].
    pose proof (io_Copy_files localFile (Body resp) wc) as (d & Hpre & Hfilesi & _ & Hnone).
    destruct (io_Copy localFile (Body resp) wc) as [[n oe] wi]; simpl in *.
    rewrite Hcases; simpl.
    exists d. split; [exact Hpre|]. split.
    + rewrite Hfilesi, Hname, Hfilesc, lookup_insert_eq. simpl.
      rewrite insert_insert_eq, Hfilesm.
      destruct Henvm as [Hnm _]. destruct Henvc as [Hnc _].
      rewrite Hnc, Hnm. reflexivity.
    + intros Hoe. apply Hnone. destruct oe; [discriminate | reflexivity].
  - left. exists c. rewrite Hcases; simpl. split; [reflexivity|].
    destruct Hcreate as [-> _]. exact Hfilesm.
Qed.

(** X1: when [Download] returns no error, the destination file holds exactly
    the bytes of the response body and carries the local time; the body was
    delivered without a failure, and every other file is as it was. *)
Theorem Download_stores_body {V} fd url path (read : ReadFunc V) w w1 resp :
  serve_get w url = inl resp ->
  Download fd url path read w = (None, w1) ->
  files w1 = <[ path := mkFile (bytes (Body resp)) (now w) ]> (files w) /\
  failure (Body resp) = None.
Proof.
  intros Hget Hdl.
  destruct (Download_files fd url path read w resp Hget)
    as [(c & Herr & _) | (d & _ & Hfiles & Hnone)];
    rewrite Hdl in *; simpl in *; [discriminate|].
  destruct (Hnone eq_refl) as [-> Hfail]. split; assumption.
Qed.

Lemma Download_stores_body_witness :
  files (snd (Download sample_Dir sample_url sample_path read_length ahead_world))
  = <[ sample_path := mkFile [Byte.x68; Byte.x69] 2000 ]> ∅ /\
  failure sample_body = None.
Proof.
  apply (Download_stores_body sample_Dir sample_url sample_path read_length
           ahead_world _ sample_response); [reflexivity|].
  vm_compute. reflexivity.
Defined.

(** X2: once the GET request is answered, [Download] either fails to open
    the local file and leaves every file as it was, or leaves in the
    destination a prefix of the response body, stamped with the local time:
    what the file held before is gone, even when the copy fails half way.  No
    other file changes. *)
Theorem Download_leaves_prefix {V} fd url path (read : ReadFunc V) w resp :
  serve_get w url = inl resp ->
  (exists c, fst (Download fd url path read w) =
               Some (fmt_Errorf "failed to open local file: %v" c) /\
             files (snd (Download fd url path read w)) = files w) \/
  (exists d, d `prefix_of` bytes (Body resp) /\
             files (snd (Download fd url path read w)) =
               <[ path := mkFile d (now w) ]> (files w)).
Proof.
  intros Hget.
  destruct (Download_files fd url path read w resp Hget)
    as [Hopen | (d & Hpre & Hfiles & _)]; [left; exact Hopen|].
  right. exists d. split; assumption.
Qed.

Lemma Download_leaves_prefix_witness :
  (exists c, fst (Download sample_Dir sample_url sample_path read_length
                    full_disk_world) =
               Some (fmt_Errorf "failed to open local file: %v" c) /\
             files (snd (Download sample_Dir sample_url sample_path read_length
                           full_disk_world)) = files full_disk_world) \/
  (exists d, d `prefix_of` bytes (Body sample_response) /\
             files (snd (Download sample_Dir sample_url sample_path read_length
                           full_disk_world)) =
               <[ sample_path := mkFile d (now full_disk_world) ]>
                 (files full_disk_world)).
Proof.
  apply (Download_leaves_prefix sample_Dir sample_url sample_path read_length
           full_disk_world sample_response).
  reflexivity.
Defined.

Example Download_full_disk :
  let r := Download sample_Dir sample_url sample_path read_length full_disk_world in
  fst r = Some (errorString
                  "failed to store resource locally: write data/copy.txt: no space left on device") /\
  files (snd r) !! sample_path = Some (mkFile [Byte.x68] 2000).
Proof. vm_compute. repeat split. Qed.

(** X3: when the GET request fails, [Download] returns the cause behind
    "failed to download resource: " and has done nothing else: no directory
    is made, no file is created or written. *)
Theorem Download_get_failure {V} fd url path (read : ReadFunc V) w c :
  serve_get w url = inr c ->
  Download fd url path read w =
    (Some (errorString ("failed to download resource: " +:+ Error c)),
     set_trace (trace w ++ [EvGet url]) w).
Proof.
  intros Hget.
  pose proof (Download_cases fd url path read w) as Hcases.
  rewrite Hget in Hcases. rewrite Hcases.
  unfold fmt_Errorf. simpl. rewrite append_empty_r. reflexivity.
Qed.

Lemma Download_get_failure_witness :
  Download sample_Dir sample_url sample_path read_length offline_world =
    (Some (errorString "failed to download resource: connection refused"),
     set_trace [EvGet sample_url] offline_world).
Proof.
  apply (Download_get_failure sample_Dir sample_url sample_path read_length
           offline_world (errorString "connection refused")).
  reflexivity.
Defined.



Example Download_file_in_the_way :
  fst (os_MkdirAll (sample_Dir sample_path) file_in_the_way_world) =
    Some (PathError "mkdir" "data" ENOTDIR) /\
  fst (Download sample_Dir sample_url sample_path read_length file_in_the_way_world) =
    Some (errorString
            "failed to open local file: open data/copy.txt: not a directory") /\
  stat_of file_in_the_way_world sample_path =
    inr (PathError "stat" sample_path ENOTDIR).
Proof. vm_compute. repeat split. Qed.



(** ** Loading, step by step *)

Lemma LoadLocal_cases {V} path (read : ReadFunc V) w :
  let w0 := set_trace (trace w ++ [EvOpen path]) w in
  match fst (os_Open path w) with
  | inr c => LoadLocal path read w = ((None, Some c), w0)
  | inl file =>
      LoadLocal path read w =
        (match read (fst (File_Reader file w)) with
         | (_, Some err) => (None, Some err)
         | (value, None) => (value, None)
         end,
         set_trace (trace w ++ [EvOpen path; EvRead; EvFileClose (Name file)]) w)
  end.
Proof.
  unfold LoadLocal, defer, File_Close, call, bufio_NewReader, bind, emit, ret.
  pose proof (os_Open_world path w) as Ho.
  destruct (os_Open path w) as [[file|c] w0]; simpl in *; subst w0;
    [|reflexivity].
  unfold File_Reader; simpl.
  destruct (files w !! Name file); simpl;
    match goal with |- context [read ?r] => destruct (read r) as [v [e|]] end;
    simpl; rewrite <- !app_assoc; reflexivity.
Qed.

Lemma LoadRemote_cases {V} url (read : ReadFunc V) w :
  match serve_get w url with
  | inr c =>
      LoadRemote url read w =
        ((None, Some c), set_trace (trace w ++ [EvGet url]) w)
  | inl resp =>
      LoadRemote url read w =
        (match read (Body resp) with
         | (_, Some err) => (None, Some err)
         | (value, None) => (value, None)
         end,
         set_trace (trace w ++ [EvGet url; EvRead; EvBodyClose]) w)
  end.
Proof.
  unfold LoadRemote, http_Get, defer, Body_Close, call, bufio_NewReader,
    bind, emit, ret; simpl.
  destruct (serve_get w url) as [resp|c]; [|reflexivity].
  destruct (read (Body resp)) as [v [e|]]; simpl; rewrite <- !app_assoc;
    reflexivity.
Qed.

(** X6: when the file cannot be opened, [LoadLocal] returns [nil] and the
    error of [os.Open], and has neither called the [ReadFunc] nor closed
    anything; [LoadRemote] does the same when the GET request fails. *)
Theorem Load_failure_skips_read {V} path url (read : ReadFunc V) w :
  (forall c, fst (os_Open path w) = inr c ->
     LoadLocal path read w =
       ((None, Some c), set_trace (trace w ++ [EvOpen path]) w)) /\
  (forall c, serve_get w url = inr c ->
     LoadRemote url read w =
       ((None, Some c), set_trace (trace w ++ [EvGet url]) w)).
Proof.
  split; intros c Hc.
  - pose proof (LoadLocal_cases path read w) as H. rewrite Hc in H. exact H.
  - pose proof (LoadRemote_cases url read w) as H. rewrite Hc in H. exact H.
Qed.

Lemma Load_failure_skips_read_witness :
  LoadLocal sample_path read_length ahead_world =
    ((None, Some (PathError "open" sample_path ENOENT)),
     set_trace [EvOpen sample_path] ahead_world) /\
  LoadRemote sample_url read_length offline_world =
    ((None, Some (errorString "connection refused")),
     set_trace [EvGet sample_url] offline_world).
Proof.
  split.
  - apply (Load_failure_skips_read sample_path sample_url read_length ahead_world).
    reflexivity.
  - apply (Load_failure_skips_read sample_path sample_url read_length offline_world).
    reflexivity.
Defined.

(** X7: a local file and a response body with the same bytes load to the same
    result: when the file opens, the GET request is answered and the body
    delivers the bytes of the file without a failure, [LoadLocal] and
    [LoadRemote] return the same value and the same error for the same
    [ReadFunc]. *)
Theorem Load_same_bytes_same_result {V} path url (read : ReadFunc V) w d resp :
  files w !! path = Some d ->
  lookup_fault w path = None ->
  open_fault w path = None ->
  serve_get w url = inl resp ->
  Body resp = mkReader (data d) None ->
  fst (LoadLocal path read w) = fst (LoadRemote url read w).
Proof.
  intros Hfile Hlf Hof Hget Hbody.
  pose proof (LoadLocal_cases path read w) as Hl.
  pose proof (LoadRemote_cases url read w) as Hr.
  rewrite Hget in Hr.
  unfold os_Open, bind, emit in Hl; simpl in Hl.
  rewrite Hlf, Hof, Hfile in Hl; simpl in Hl.
  unfold File_Reader in Hl; simpl in Hl. rewrite Hfile in Hl; simpl in Hl.
  rewrite Hl, Hr, Hbody. reflexivity.
Qed.

Lemma Load_same_bytes_same_result_witness :
  fst (LoadLocal sample_path read_length mirrored_world) =
  fst (LoadRemote sample_url read_length mirrored_world).
Proof.
  apply (Load_same_bytes_same_result sample_path sample_url read_length
           mirrored_world (mkFile [Byte.x68; Byte.x69] 1000) sample_response);
    reflexivity.
Defined.

(** X8: once the file is open, [LoadLocal] calls the [ReadFunc] exactly once
    and closes the file after it, whether the [ReadFunc] returned an error or
    not; [LoadRemote] does the same with the response body once the GET
    request is answered. *)
Theorem Load_reads_once_and_closes {V} path url (read : ReadFunc V) w :
  (forall file, fst (os_Open path w) = inl file ->
     trace (snd (LoadLocal path read w)) =
       (trace w ++ [EvOpen path; EvRead; EvFileClose path])%list) /\
  (forall resp, serve_get w url = inl resp ->
     trace (snd (LoadRemote url read w)) =
       (trace w ++ [EvGet url; EvRead; EvBodyClose])%list).
Proof.
  split.
  - intros file Hopen.
    pose proof (LoadLocal_cases path read w) as H. rewrite Hopen in H.
    assert (Hname : Name file = path).
    { unfold os_Open, bind, emit in Hopen; simpl in Hopen.
      destruct (lookup_fault w path); [discriminate|].
      destruct (open_fault w path); [discriminate|].
      destruct (files w !! path); [inversion Hopen; reflexivity|].
      destruct (dirs w !! path); [inversion Hopen; reflexivity | discriminate]. }
    rewrite H, Hname. reflexivity.
  - intros resp Hget.
    pose proof (LoadRemote_cases url read w) as H. rewrite Hget in H.
    rewrite H. reflexivity.
Qed.

Lemma Load_reads_once_and_closes_witness :
  trace (snd (LoadLocal sample_path read_partial stale_world)) =
    [EvOpen sample_path; EvRead; EvFileClose sample_path] /\
  trace (snd (LoadRemote sample_url read_partial stale_world)) =
    [EvGet sample_url; EvRead; EvBodyClose].
Proof.
  destruct (Load_reads_once_and_closes sample_path sample_url read_partial
              stale_world) as [Hlocal Hremote].
  split.
  - apply (Hlocal (mkHandle sample_path)). reflexivity.
  - apply (Hremote sample_response). reflexivity.
Defined.

(** ** What is opened is closed *)

(** X9: once the GET request is answered, [Download] closes the response body
    on every way out, as its last call.  When the local file cannot be
    created nothing is copied and no file is closed; when it is created, the
    copy is made once and the file is closed before the body, whether the
    copy failed or not. *)
Theorem Download_closes_what_it_opened {V} fd url path (read : ReadFunc V) w resp :
  serve_get w url = inl resp ->
  ((exists c, fst (Download fd url path read w) =
                Some (fmt_Errorf "failed to open local file: %v" c)) /\
   trace (snd (Download fd url path read w)) =
     (trace w ++ [EvGet url; EvMkdirAll (fd path); EvCreate path;
                  EvBodyClose])%list) \/
  ((fst (Download fd url path read w) = None \/
    exists c, fst (Download fd url path read w) =
                Some (fmt_Errorf "failed to store resource locally: %v" c)) /\
   trace (snd (Download fd url path read w)) =
     (trace w ++ [EvGet url; EvMkdirAll (fd path); EvCreate path; EvCopy path;
                  EvFileClose path; EvBodyClose])%list).
Proof.
  intros Hget.
  pose proof (Download_cases fd url path read w) as Hcases.
  rewrite Hget in Hcases; simpl in Hcases.
  pose proof (os_MkdirAll_trace (fd path) (set_trace (trace w ++ [EvGet url]) w))
    as Hm; simpl in Hm.
  set (wm := snd (os_MkdirAll (fd path) (set_trace (trace w ++ [EvGet url]) w))) in *.
  pose proof (os_Create_trace fd path wm) as Hc.
  pose proof (os_Create_files fd path wm) as Hf.
  destruct (os_Create fd path wm) as [[localFile|c] wc]; simpl in Hc.
  - right. destruct Hf as [Hname _].
    pose proof (io_Copy_trace localFile (Body resp) wc) as Hi.
    destruct (io_Copy localFile (Body resp) wc) as [[n oe] wi]; simpl in Hi.
    rewrite Hcases; simpl. split.
    + destruct oe as [c|]; [right; exists c; reflexivity | left; reflexivity].
    + rewrite Hi, Hc, Hm, Hname, <- !app_assoc. reflexivity.
  - left. rewrite Hcases; simpl. split; [exists c; reflexivity|].
    rewrite Hc, Hm, <- !app_assoc. reflexivity.
Qed.

Lemma Download_closes_what_it_opened_witness :
  ((exists c, fst (Download sample_Dir sample_url sample_path read_length
                     full_disk_world) =
                Some (fmt_Errorf "failed to open local file: %v" c)) /\
   trace (snd (Download sample_Dir sample_url sample_path read_length
                 full_disk_world)) =
     (trace full_disk_world ++
      [EvGet sample_url; EvMkdirAll (sample_Dir sample_path);
       EvCreate sample_path; EvBodyClose])%list) \/
  ((fst (Download sample_Dir sample_url sample_path read_length
           full_disk_world) = None \/
    exists c, fst (Download sample_Dir sample_url sample_path read_length
                     full_disk_world) =
                Some (fmt_Errorf "failed to store resource locally: %v" c)) /\
   trace (snd (Download sample_Dir sample_url sample_path read_length
                 full_disk_world)) =
     (trace full_disk_world ++
      [EvGet sample_url; EvMkdirAll (sample_Dir sample_path);
       EvCreate sample_path; EvCopy sample_path; EvFileClose sample_path;
       EvBodyClose])%list).
Proof.
  apply (Download_closes_what_it_opened sample_Dir sample_url sample_path
           read_length full_disk_world sample_response).
  reflexivity.
Defined.

(** ** More on the freshness check *)

(** X10: of the values of the Last-Modified header only the first is looked
    at: two answers to the HEAD request whose headers start with the same
    value give the same result, in worlds that are otherwise the same. *)
Theorem NeedsUpdate_first_value_only tp url path w w' resp resp' first rest rest' :
  serve_head w url = inl resp ->
  serve_head w' url = inl resp' ->
  Header resp !! httpLastModified = Some (first :: rest) ->
  Header resp' !! httpLastModified = Some (first :: rest') ->
  stat_of w' path = stat_of w path ->
  fst (NeedsUpdate tp url path w) = fst (NeedsUpdate tp url path w').
Proof.
  intros Hh Hh' Hv Hv' Hstat.
  destruct (tp httpTimeFormat first) as [remote|c] eqn:Hp.
  - rewrite (NeedsUpdate_valid_header _ _ _ _ _ _ _ _ Hh Hv Hp).
    rewrite (NeedsUpdate_valid_header _ _ _ _ _ _ _ _ Hh' Hv' Hp).
    simpl. rewrite Hstat. reflexivity.
  - unfold NeedsUpdate, http_Head, bind, emit, ret; simpl.
    rewrite Hh, Hh', Hv, Hv', Hp. reflexivity.
Qed.

(** X11: [NeedsUpdate] makes the HEAD request first and calls [os.Stat] only
    when the header has a first value that parses; when it does not get that
    far it returns an error.  It makes no other call: no GET request, and no
    close of the response body. *)
Theorem NeedsUpdate_calls tp url path w :
  exists t,
    snd (NeedsUpdate tp url path w) = set_trace (trace w ++ t) w /\
    ((t = [EvHead url; EvStat path] /\
      exists resp first rest remote,
        serve_head w url = inl resp /\
        Header resp !! httpLastModified = Some (first :: rest) /\
        tp httpTimeFormat first = inl remote) \/
     (t = [EvHead url] /\
      exists err, fst (NeedsUpdate tp url path w) = (false, Some err))).
Proof.
  destruct (serve_head w url) as [resp|c] eqn:Hh.
  - destruct (Header resp !! httpLastModified) as [[|first rest]|] eqn:Hv.
    + exists [EvHead url].
      unfold NeedsUpdate, http_Head, bind, emit, ret; simpl. rewrite Hh, Hv.
      split; [reflexivity|]. right. split; [reflexivity|]. eexists; reflexivity.
    + destruct (tp httpTimeFormat first) as [remote|c] eqn:Hp.
      * exists [EvHead url; EvStat path].
        rewrite (NeedsUpdate_valid_header _ _ _ _ _ _ _ _ Hh Hv Hp).
        split; [reflexivity|]. left. split; [reflexivity|].
        exists resp, first, rest, remote. auto.
      * exists [EvHead url].
        unfold NeedsUpdate, http_Head, bind, emit, ret; simpl.
        rewrite Hh, Hv, Hp.
        split; [reflexivity|]. right. split; [reflexivity|]. eexists; reflexivity.
    + exists [EvHead url].
      unfold NeedsUpdate, http_Head, bind, emit, ret; simpl. rewrite Hh, Hv.
      split; [reflexivity|]. right. split; [reflexivity|]. eexists; reflexivity.
  - exists [EvHead url].
    unfold NeedsUpdate, http_Head, bind, emit, ret; simpl. rewrite Hh.
    split; [reflexivity|]. right. split; [reflexivity|]. eexists; reflexivity.
Qed.

Lemma NeedsUpdate_first_value_only_witness :
  fst (NeedsUpdate sample_Parse sample_url sample_path stale_world) =
  fst (NeedsUpdate sample_Parse sample_url sample_path two_values_world).
Proof.
  apply (NeedsUpdate_first_value_only sample_Parse sample_url sample_path
           stale_world two_values_world sample_response two_values_response
           sample_date [] ["Fri, 02 Jan 1970 00:00:00 GMT"]);
    reflexivity.
Defined.

(** ** More on synchronizing *)

(** X12: when [Update] returns [(true, nil)], the destination file holds
    exactly the bytes of the body the GET request was answered with and
    carries the local time; no other file has changed. *)
Theorem Update_stores_body {V} tp fd url path (read : ReadFunc V) w w1 resp :
  serve_get w url = inl resp ->
  Update tp fd url path read w = ((true, None), w1) ->
  files w1 = <[ path := mkFile (bytes (Body resp)) (now w) ]> (files w) /\
  failure (Body resp) = None.
Proof.
  intros Hget Hup.
  unfold Update, bind, ret in Hup.
  pose proof (NeedsUpdate_world tp url path w) as (t & Hw0 & _).
  destruct (NeedsUpdate tp url path w) as [[b oe] w0]; simpl in Hw0.
  destruct oe as [e|]; [destruct b; discriminate|].
  destruct b; [|discriminate].
  destruct (Download fd url path read w0) as [err w1'] eqn:Ed.
  inversion Hup; subst err w1'; clear Hup.
  assert (Hget0 : serve_get w0 url = inl resp) by (subst w0; exact Hget).
  destruct (Download_files fd url path read w0 resp Hget0)
    as [(c & Herr & _) | (d & _ & Hfiles & Hnone)];
    rewrite Ed in *; simpl in *; [discriminate|].
  destruct (Hnone eq_refl) as [-> Hfail].
  split; [|exact Hfail]. rewrite Hfiles, Hw0. reflexivity.
Qed.

Lemma Update_stores_body_witness :
  files (snd (Update sample_Parse sample_Dir sample_url sample_path read_length
                stale_world))
  = <[ sample_path := mkFile [Byte.x68; Byte.x69] 2000 ]> (files stale_world) /\
  failure sample_body = None.
Proof.
  apply (Update_stores_body sample_Parse sample_Dir sample_url sample_path
           read_length stale_world _ sample_response); [reflexivity|].
  vm_compute. reflexivity.
Defined.

(** X13: a local copy cannot catch up with a Last-Modified time that is ahead
    of the local clock.  When [Update] has downloaded without an error at a
    local time before the remote modification time, the next [Update], however
    much later it runs against the same remote side, finds the copy stale
    again and makes another GET request. *)
Theorem Update_repeats_when_remote_is_ahead {V} tp fd url path (read : ReadFunc V)
    w w1 resp first rest remote d :
  serve_head w url = inl resp ->
  Header resp !! httpLastModified = Some (first :: rest) ->
  tp httpTimeFormat first = inl remote ->
  Update tp fd url path read w = ((true, None), w1) ->
  now w < remote ->
  fst (fst (Update tp fd url path read (elapse d w1))) = true /\
  gets (snd (Update tp fd url path read (elapse d w1))) = S (gets w1).
Proof.
  intros Hhead Hhdr Hparse Hfirst Hlt.
  unfold Update, bind in Hfirst.
  pose proof (NeedsUpdate_world tp url path w) as (t & Hw0 & Ht).
  destruct (NeedsUpdate tp url path w) as [[b oe] w0]; simpl in Hw0.
  destruct oe as [e|]; [destruct b; discriminate|].
  destruct b; [|discriminate].
  destruct (Download fd url path read w0) as [err w1'] eqn:Ed.
  unfold ret in Hfirst. inversion Hfirst; subst err w1'; clear Hfirst.
  apply Download_success in Ed as (Henv & Hres & d0 & Hfile).
  destruct Henv as (Hnow & Hsh & _ & Hlf & _).
  assert (Hhead2 : serve_head (elapse d w1) url = inl resp).
  { simpl. rewrite Hsh, Hw0. simpl. exact Hhead. }
  assert (Hstat : stat_of (elapse d w1) path = inl (mkFileInfo (now w))).
  { unfold stat_of, os_Stat, bind, emit; simpl.
    rewrite Hlf, Hres, Hfile, Hw0. reflexivity. }
  unfold Update, bind.
  rewrite (NeedsUpdate_valid_header _ _ _ _ _ _ _ _ Hhead2 Hhdr Hparse), Hstat.
  simpl. apply time_After_spec in Hlt. rewrite Hlt.
  match goal with |- context [Download fd url path read ?w2] =>
    pose proof (Download_trace fd url path read w2) as (t1 & Ht1 & Hg1 & _);
    destruct (Download fd url path read w2) as [err w3]
  end.
  simpl in *. split; [reflexivity|].
  unfold gets. rewrite Ht1, !count_app, Hg1. simpl. lia.
Qed.

Lemma Update_repeats_when_remote_is_ahead_witness :
  fst (fst (Update sample_Parse sample_Dir sample_url sample_path read_length
              (elapse 60 (snd (Update sample_Parse sample_Dir sample_url
                                 sample_path read_length behind_world))))) = true.
Proof.
  eapply (Update_repeats_when_remote_is_ahead sample_Parse sample_Dir sample_url
            sample_path read_length behind_world _ sample_response sample_date []
            1000 60);
    [reflexivity | reflexivity | reflexivity | | vm_compute; reflexivity].
  vm_compute. reflexivity.
Defined.

(** X14: what [Download] has stored, [LoadLocal] reads back.  After a
    [Download] without an error, [LoadLocal] on the destination (when the
    file may be opened) returns what [LoadRemote] returns for the same
    response and the same [ReadFunc]. *)
Theorem Download_then_LoadLocal {V} fd url path (read0 read : ReadFunc V) w w1 resp :
  serve_get w url = inl resp ->
  open_fault w path = None ->
  Download fd url path read0 w = (None, w1) ->
  fst (LoadLocal path read w1) = fst (LoadRemote url read w).
Proof.
  intros Hget Hof Hdl.
  destruct (Download_files fd url path read0 w resp Hget)
    as [(c & Herr & _) | (d & _ & Hfiles & Hnone)];
    rewrite Hdl in *; simpl in *; [discriminate|].
  destruct (Hnone eq_refl) as [-> Hfail].
  apply Download_success in Hdl as (Henv & Hres & _).
  destruct Henv as (_ & _ & _ & Hlf & Hof1 & _).
  pose proof (LoadLocal_cases path read w1) as Hl.
  pose proof (LoadRemote_cases url read w) as Hr.
  rewrite Hget in Hr.
  unfold os_Open, bind, emit in Hl; simpl in Hl.
  rewrite Hlf, Hres, Hof1, Hof, Hfiles, lookup_insert_eq in Hl; simpl in Hl.
  unfold File_Reader in Hl; simpl in Hl.
  rewrite Hfiles, lookup_insert_eq in Hl; simpl in Hl.
  rewrite Hl, Hr.
  destruct (Body resp) as [bs fl]; simpl in *. subst fl. reflexivity.
Qed.

Lemma Download_then_LoadLocal_witness :
  fst (LoadLocal sample_path read_length
         (snd (Download sample_Dir sample_url sample_path read_partial ahead_world)))
  = fst (LoadRemote sample_url read_length ahead_world).
Proof.
  apply (Download_then_LoadLocal sample_Dir sample_url sample_path read_partial
           read_length ahead_world _ sample_response);
    [reflexivity | reflexivity |].
  vm_compute. reflexivity.
Defined.

(** X15: [Update] never calls the [ReadFunc] it is given either: its result
    and the world it leaves are the same for any two functions passed, and
    the trace gains no call of a [ReadFunc]. *)
Theorem Update_ignores_read {V} tp fd url path (read1 read2 : ReadFunc V) w :
  Update tp fd url path read1 w = Update tp fd url path read2 w /\
  reads (snd (Update tp fd url path read1 w)) = reads w.
Proof.
  split; [reflexivity|].
  unfold Update, bind, ret.
  pose proof (NeedsUpdate_world tp url path w) as (t & Hw0 & Ht).
  destruct (NeedsUpdate tp url path w) as [[b oe] w0]; simpl in Hw0.
  assert (Hr : reads w0 = reads w)
    by (subst w0; unfold reads; simpl; rewrite count_app;
        destruct Ht as [-> | ->]; simpl; lia).
  destruct oe as [e|]; [destruct b; exact Hr|].
  destruct b; [|exact Hr].
  pose proof (Download_trace fd url path read1 w0) as (t1 & Ht1 & _ & _ & Hr1).
  destruct (Download fd url path read1 w0) as [err w1]; simpl in *.
  unfold reads in *. rewrite Ht1, count_app, Hr1, Hr. lia.
Qed.

(** ** Errors, phase by phase *)

(** Every error of [Download] is one of three, and the world says which: the
    cause is the error of the call that failed, with that phase in front. *)
Lemma Download_errors {V} fd url path (read : ReadFunc V) w e :
  fst (Download fd url path read w) = Some e ->
  (exists c, serve_get w url = inr c /\
             e = fmt_Errorf "failed to download resource: %v" c /\
             wraps "failed to download resource" c e) \/
  (exists resp c,
     serve_get w url = inl resp /\
     fst (os_Create fd path (before_Create fd url path w)) = inr c /\
     e = fmt_Errorf "failed to open local file: %v" c /\
     wraps "failed to open local file" c e) \/
  (exists resp localFile wc c,
     serve_get w url = inl resp /\
     os_Create fd path (before_Create fd url path w) = (inl localFile, wc) /\
     snd (fst (io_Copy localFile (Body resp) wc)) = Some c /\
     e = fmt_Errorf "failed to store resource locally: %v" c /\
     wraps "failed to store resource locally" c e).
Proof.
  pose proof (Download_cases fd url path read w) as Hcases.
  unfold before_Create.
  change (snd (http_Get url w)) with (set_trace (trace w ++ [EvGet url]) w).
  destruct (serve_get w url) as [resp|c]; simpl in Hcases.
  - set (wm := snd (os_MkdirAll (fd path) (set_trace (trace w ++ [EvGet url]) w))) in *.
    destruct (os_Create fd path wm) as [[localFile|c] wc] eqn:Ec.
    + destruct (io_Copy localFile (Body resp) wc) as [[n oe] wi] eqn:Ei.
      rewrite Hcases; simpl.
      destruct oe as [c|]; simpl; [|discriminate].
      intros H; inversion H; subst e; clear H. right. right.
      exists resp, localFile, wc, c. rewrite Ei.
      repeat split.
      unfold wraps, fmt_Errorf. simpl. rewrite append_empty_r. reflexivity.
    + rewrite Hcases; simpl.
      intros H; inversion H; subst e; clear H. right. left.
      exists resp, c. repeat split.
      unfold wraps, fmt_Errorf. simpl. rewrite append_empty_r. reflexivity.
  - rewrite Hcases; simpl.
    intros H; inversion H; subst e; clear H. left.
    exists c. repeat split.
    unfold wraps, fmt_Errorf. simpl. rewrite append_empty_r. reflexivity.
Qed.

(** Every error of [NeedsUpdate] is one of five, and the world says which. *)
Lemma NeedsUpdate_errors tp url path w b e :
  fst (NeedsUpdate tp url path w) = (b, Some e) ->
  serve_head w url = inr e \/
  (exists resp,
     serve_head w url = inl resp /\
     Header resp !! httpLastModified = Some [] /\
     e = errorString "Last-Modified header is empty") \/
  (exists resp,
     serve_head w url = inl resp /\
     Header resp !! httpLastModified = None /\
     e = errorString "response does not contain a Last-Modified header") \/
  (exists resp first rest c,
     serve_head w url = inl resp /\
     Header resp !! httpLastModified = Some (first :: rest) /\
     tp httpTimeFormat first = inr c /\
     e = fmt_Errorf "cannot parse Last-Modified header: %v" c /\
     wraps "cannot parse Last-Modified header" c e) \/
  (exists resp first rest remote,
     serve_head w url = inl resp /\
     Header resp !! httpLastModified = Some (first :: rest) /\
     tp httpTimeFormat first = inl remote /\
     stat_of w path = inr e /\ os_IsNotExist e = false).
Proof.
  destruct (serve_head w url) as [resp|c] eqn:Hh.
  - destruct (Header resp !! httpLastModified) as [[|first rest]|] eqn:Hv.
    + unfold NeedsUpdate, http_Head, fmt_Errorf0, bind, emit, ret; simpl.
      rewrite Hh, Hv. simpl. intros H; inversion H; subst.
      right. left. exists resp. auto.
    + destruct (tp httpTimeFormat first) as [remote|c] eqn:Hp.
      * rewrite (NeedsUpdate_valid_header _ _ _ _ _ _ _ _ Hh Hv Hp). simpl.
        intros H. do 4 right. exists resp, first, rest, remote.
        destruct (stat_of w path) as [info|err]; [discriminate|].
        destruct (os_IsNotExist err) eqn:Hne; [discriminate|].
        inversion H; subst. auto.
      * unfold NeedsUpdate, http_Head, bind, emit, ret; simpl.
        rewrite Hh, Hv, Hp. simpl. intros H; inversion H; subst.
        do 3 right. left. exists resp, first, rest, c. repeat split; auto.
        unfold wraps, fmt_Errorf. simpl. rewrite append_empty_r. reflexivity.
    + unfold NeedsUpdate, http_Head, fmt_Errorf0, bind, emit, ret; simpl.
      rewrite Hh, Hv. simpl. intros H; inversion H; subst.
      right. right. left. exists resp. auto.
  - unfold NeedsUpdate, http_Head, bind, emit, ret; simpl. rewrite Hh. simpl.
    intros H; inversion H; subst. left. reflexivity.
Qed.

(** An error of [LoadLocal] is the error of [os.Open] or the error the
    [ReadFunc] returned for the open file, as it is. *)
Lemma LoadLocal_errors {V} path (read : ReadFunc V) w v e :
  fst (LoadLocal path read w) = (v, Some e) ->
  fst (os_Open path w) = inr e \/
  (exists file v',
     fst (os_Open path w) = inl file /\
     read (fst (File_Reader file w)) = (v', Some e)).
Proof.
  pose proof (LoadLocal_cases path read w) as Hcases; simpl in Hcases.
  destruct (fst (os_Open path w)) as [file|c].
  - rewrite Hcases; simpl.
    destruct (read (fst (File_Reader file w))) as [v' [c|]] eqn:Er;
      intros H; inversion H; subst.
    right. exists file, v'. auto.
  - rewrite Hcases; simpl. intros H; inversion H; subst. left. reflexivity.
Qed.

(** An error of [LoadRemote] is the error of the GET request or the error the
    [ReadFunc] returned for the response body, as it is. *)
Lemma LoadRemote_errors {V} url (read : ReadFunc V) w v e :
  fst (LoadRemote url read w) = (v, Some e) ->
  serve_get w url = inr e \/
  (exists resp v', serve_get w url = inl resp /\ read (Body resp) = (v', Some e)).
Proof.
  pose proof (LoadRemote_cases url read w) as Hcases.
  destruct (serve_get w url) as [resp|c].
  - rewrite Hcases; simpl.
    destruct (read (Body resp)) as [v' [c|]] eqn:Er;
      intros H; inversion H; subst.
    right. exists resp, v'. auto.
  - rewrite Hcases; simpl. intros H; inversion H; subst. left. reflexivity.
Qed.

(** An error of [Update] is the error of [NeedsUpdate], returned with
    [false], or the error of the [Download] that followed a [(true, nil)],
    returned with [true]. *)
Lemma Update_errors {V} tp fd url path (read : ReadFunc V) w b e :
  fst (Update tp fd url path read w) = (b, Some e) ->
  (b = false /\
   exists b', fst (NeedsUpdate tp url path w) = (b', Some e)) \/
  (b = true /\
   fst (NeedsUpdate tp url path w) = (true, None) /\
   fst (Download fd url path read (snd (NeedsUpdate tp url path w))) = Some e).
Proof.
  unfold Update, bind, ret.
  destruct (NeedsUpdate tp url path w) as [[b' [c|]] w0]; simpl.
  - intros H. left. destruct b'; simpl in H; inversion H; subst; eauto.
  - destruct b'; simpl; [|discriminate].
    destruct (Download fd url path read w0) as [oe w1] eqn:Ed. simpl.
    intros H. inversion H; subst. right. auto.
Qed.

Lemma Update_requests {V} tp fd url path (read : ReadFunc V) w :
  heads (snd (Update tp fd url path read w)) = S (heads w) /\
  (gets (snd (Update tp fd url path read w)) <= S (gets w))%nat.
Proof.
  unfold Update, bind, ret.
  pose proof (NeedsUpdate_world tp url path w) as (t & Hw0 & Ht).
  destruct (NeedsUpdate tp url path w) as [[b oe] w0]; simpl in Hw0.
  assert (Hh : heads w0 = S (heads w))
    by (subst w0; unfold heads; simpl; rewrite count_app;
        destruct Ht as [-> | ->]; simpl; lia).
  assert (Hg : gets w0 = gets w)
    by (subst w0; unfold gets; simpl; rewrite count_app;
        destruct Ht as [-> | ->]; simpl; lia).
  destruct oe as [e|]; [destruct b; simpl; lia|].
  destruct b; simpl; [|lia].
  pose proof (Download_trace fd url path read w0) as (t1 & Ht1 & Hg1 & Hh1 & _).
  destruct (Download fd url path read w0) as [oe w1]; simpl in *.
  unfold heads, gets in *. rewrite Ht1, !count_app. lia.
Qed.

(** C9, as the code has it.  [Download] puts the phase that failed in front
    of every error it returns: the failed GET request, the failed creation of
    the local file, the failed copy, each with the error of that very call
    as its cause.  [NeedsUpdate] does so for a date that does not parse; the
    errors for a missing and for an empty header are messages of their own.
    Every other error is handed to the caller as it is: the failure to open
    the file and the error of the [ReadFunc] in [LoadLocal], the failure of
    the GET request and the error of the [ReadFunc] in [LoadRemote], the
    failure of the HEAD request and of the stat in [NeedsUpdate], and in
    [Update] whatever [NeedsUpdate] or the [Download] after it returned.  No
    request is repeated: [NeedsUpdate] makes one HEAD request, [Download] and
    [LoadRemote] one GET request, and [Update] one HEAD request and at most
    one GET request. *)
Theorem errors_and_context {V} tp fd url path (read : ReadFunc V) w :
  (forall e, fst (Download fd url path read w) = Some e ->
     (exists c, serve_get w url = inr c /\
                e = fmt_Errorf "failed to download resource: %v" c /\
                wraps "failed to download resource" c e) \/
     (exists resp c,
        serve_get w url = inl resp /\
        fst (os_Create fd path (before_Create fd url path w)) = inr c /\
        e = fmt_Errorf "failed to open local file: %v" c /\
        wraps "failed to open local file" c e) \/
     (exists resp localFile wc c,
        serve_get w url = inl resp /\
        os_Create fd path (before_Create fd url path w) = (inl localFile, wc) /\
        snd (fst (io_Copy localFile (Body resp) wc)) = Some c /\
        e = fmt_Errorf "failed to store resource locally: %v" c /\
        wraps "failed to store resource locally" c e)) /\
  (forall b e, fst (NeedsUpdate tp url path w) = (b, Some e) ->
     serve_head w url = inr e \/
     (exists resp,
        serve_head w url = inl resp /\
        Header resp !! httpLastModified = Some [] /\
        e = errorString "Last-Modified header is empty") \/
     (exists resp,
        serve_head w url = inl resp /\
        Header resp !! httpLastModified = None /\
        e = errorString "response does not contain a Last-Modified header") \/
     (exists resp first rest c,
        serve_head w url = inl resp /\
        Header resp !! httpLastModified = Some (first :: rest) /\
        tp httpTimeFormat first = inr c /\
        e = fmt_Errorf "cannot parse Last-Modified header: %v" c /\
        wraps "cannot parse Last-Modified header" c e) \/
     (exists resp first rest remote,
        serve_head w url = inl resp /\
        Header resp !! httpLastModified = Some (first :: rest) /\
        tp httpTimeFormat first = inl remote /\
        stat_of w path = inr e /\ os_IsNotExist e = false)) /\
  (forall v e, fst (LoadLocal path read w) = (v, Some e) ->
     fst (os_Open path w) = inr e \/
     (exists file v',
        fst (os_Open path w) = inl file /\
        read (fst (File_Reader file w)) = (v', Some e))) /\
  (forall v e, fst (LoadRemote url read w) = (v, Some e) ->
     serve_get w url = inr e \/
     (exists resp v',
        serve_get w url = inl resp /\ read (Body resp) = (v', Some e))) /\
  (forall b e, fst (Update tp fd url path read w) = (b, Some e) ->
     (b = false /\
      exists b', fst (NeedsUpdate tp url path w) = (b', Some e)) \/
     (b = true /\
      fst (NeedsUpdate tp url path w) = (true, None) /\
      fst (Download fd url path read (snd (NeedsUpdate tp url path w))) = Some e)) /\
  (heads (snd (NeedsUpdate tp url path w)) = S (heads w) /\
   gets (snd (NeedsUpdate tp url path w)) = gets w) /\
  (heads (snd (Download fd url path read w)) = heads w /\
   gets (snd (Download fd url path read w)) = S (gets w)) /\
  (heads (snd (LoadRemote url read w)) = heads w /\
   gets (snd (LoadRemote url read w)) = S (gets w)) /\
  (heads (snd (LoadLocal path read w)) = heads w /\
   gets (snd (LoadLocal path read w)) = gets w) /\
  (heads (snd (Update tp fd url path read w)) = S (heads w) /\
   (gets (snd (Update tp fd url path read w)) <= S (gets w))%nat).
Proof.
  split; [intros e; apply Download_errors|].
  split; [intros b e; apply NeedsUpdate_errors|].
  split; [intros v e; apply LoadLocal_errors|].
  split; [intros v e; apply LoadRemote_errors|].
  split; [intros b e; apply Update_errors|].
  split.
  { destruct (NeedsUpdate_world tp url path w) as (t & -> & Ht).
    unfold heads, gets; simpl. rewrite !count_app.
    destruct Ht as [-> | ->]; simpl; lia. }
  split.
  { destruct (Download_trace fd url path read w) as (t & Ht & Hg & Hh & _).
    unfold heads, gets. rewrite Ht, !count_app. lia. }
  split.
  { destruct (LoadRemote_world url read w) as (t & -> & Hg & Hh).
    unfold heads, gets; simpl. rewrite !count_app. lia. }
  split.
  { destruct (LoadLocal_world path read w) as (t & -> & Hg & Hh).
    unfold heads, gets; simpl. rewrite !count_app. lia. }
  apply Update_requests.
Qed.

Lemma errors_and_context_witness :
  let e := errorString "failed to store resource locally: write data/copy.txt: no space left on device" in
  (exists c, serve_get full_disk_world sample_url = inr c /\
             e = fmt_Errorf "failed to download resource: %v" c /\
             wraps "failed to download resource" c e) \/
  (exists resp c,
     serve_get full_disk_world sample_url = inl resp /\
     fst (os_Create sample_Dir sample_path
            (before_Create sample_Dir sample_url sample_path full_disk_world)) = inr c /\
     e = fmt_Errorf "failed to open local file: %v" c /\
     wraps "failed to open local file" c e) \/
  (exists resp localFile wc c,
     serve_get full_disk_world sample_url = inl resp /\
     os_Create sample_Dir sample_path
       (before_Create sample_Dir sample_url sample_path full_disk_world) =
       (inl localFile, wc) /\
     snd (fst (io_Copy localFile (Body resp) wc)) = Some c /\
     e = fmt_Errorf "failed to store resource locally: %v" c /\
     wraps "failed to store resource locally" c e).
Proof.
  destruct (errors_and_context sample_Parse sample_Dir sample_url sample_path
              read_length full_disk_world) as [Hdownload _].
  apply Hdownload. reflexivity.
Defined.

(** C9 fails in [LoadLocal] on a file that is not there: the error of
    [os.Open] is returned as it is, with nothing of the package in front of
    it; so is the error of a refused HEAD request in [NeedsUpdate]. *)
Lemma LoadLocal_error_without_context :
  let cause := PathError "open" sample_path ENOENT in
  let refused := errorString "connection refused" in
  fst (os_Open sample_path ahead_world) = inr cause /\
  fst (LoadLocal sample_path read_length ahead_world) = (None, Some cause) /\
  ~ adds_context cause cause /\
  serve_head offline_world sample_url = inr refused /\
  fst (NeedsUpdate sample_Parse sample_url sample_path offline_world) =
    (false, Some refused) /\
  ~ adds_context refused refused.
Proof.
  repeat split; try reflexivity; apply no_context_in_itself.
Qed.

